(** * hack-rx: the retrieval pipeline of [src/app/api/v1/hackrx/run/route.ts]

    A shallow embedding of the route handler [POST] and of its helpers
    [chunkText], [cosineSimilarity], [findRelevantChunks] and [getEmbeddings],
    followed by the properties of the pipeline.

    - JavaScript strings are sequences of UTF-16 code units ([JsString]).
    - A thrown exception is the left summand of [Res].
    - Values parsed from the request body are [JsValue]s; numbers inside
      them are IEEE doubles ([float]).
    - [cosineSimilarity] and [findRelevantChunks] are given twice: on real
      numbers ([R]), for the statements made under exact arithmetic, and on
      IEEE doubles (module [Binary64]), as the engine computes them.  The
      handler carries vectors of real numbers; what is stated of it does not
      depend on scores.
    - The external collaborators ([fetch], [pdf], the embedding endpoint,
      [askOpenRouter]) are section variables acting on an abstract world;
      every call is also recorded in a trace of [Event]s.
    - Logging ([console.log], [console.error]) does not change the response
      and is left out, except that the arguments of a logging call are
      evaluated, which can throw. *)

From Stdlib Require Import String Ascii.
From Stdlib Require Import List ZArith NArith PeanoNat Bool Lia.
From Stdlib Require Import Reals Lra Permutation Sorted.
From Stdlib Require PrimFloat.
From Equations Require Import Equations.
Import ListNotations.

(* ================================================================== *)
(** ** JavaScript strings *)
(* ================================================================== *)

(** A string is its sequence of UTF-16 code units. *)
Definition JsString := list N.

(** A source literal (ASCII only) as a [JsString]. *)
Definition js (s : string) : JsString := map N_of_ascii (list_ascii_of_string s).

(** The characters matched by the pattern class [\s], which are also the
    characters removed by [String.prototype.trim]: ECMAScript's WhiteSpace
    and LineTerminator code points. *)
Definition isSpace (c : N) : bool :=
  match c with
  | 9 | 10 | 11 | 12 | 13 | 32 | 160 | 5760
  | 8192 | 8193 | 8194 | 8195 | 8196 | 8197 | 8198 | 8199 | 8200 | 8201 | 8202
  | 8232 | 8233 | 8239 | 8287 | 12288 | 65279 => true
  | _ => false
  end%N.

Definition isEmpty (s : JsString) : bool :=
  match s with [] => true | _ :: _ => false end.

(** [s.trim()] *)
Fixpoint trimStart (s : JsString) : JsString :=
  match s with
  | [] => []
  | c :: s' => if isSpace c then trimStart s' else s
  end.

Definition trim (s : JsString) : JsString := rev (trimStart (rev (trimStart s))).

(** [s.split(/\s+/)]: every maximal run of white space is one separator;
    the pieces between separators are returned, so a leading or trailing
    run leaves an empty piece at that end, and the empty string gives one
    empty piece.  [inSep] tells that the previous character belonged to a
    separator. *)
Fixpoint splitFrom (inSep : bool) (s : JsString) : list JsString :=
  match s with
  | [] => [[]]
  | c :: s' =>
      if isSpace c then
        if inSep then splitFrom true s' else [] :: splitFrom true s'
      else
        match splitFrom false s' with
        | w :: ws => (c :: w) :: ws
        | [] => [[c]]
        end
  end.

Definition split (s : JsString) : list JsString := splitFrom false s.

(** [arr.join(sep)] on an array of strings. *)
Fixpoint join (sep : JsString) (arr : list JsString) : JsString :=
  match arr with
  | [] => []
  | [w] => w
  | w :: rest => w ++ sep ++ join sep rest
  end.

(** [arr.slice(i, j)] for [0 <= i <= j]. *)
Definition slice {A : Type} (arr : list A) (i j : nat) : list A :=
  firstn (j - i) (skipn i arr).

(** [s.includes(t)] *)
Fixpoint startsWith (t s : JsString) : bool :=
  match t, s with
  | [], _ => true
  | _ :: _, [] => false
  | a :: t', b :: s' => N.eqb a b && startsWith t' s'
  end.

Fixpoint includes (s t : JsString) : bool :=
  startsWith t s || match s with [] => false | _ :: s' => includes s' t end.

(* ================================================================== *)
(** ** Exceptions *)
(* ================================================================== *)

(** A thrown value: [new Error(message)] or a [TypeError] of the engine,
    whose message is the one V8 gives. *)
Inductive Exn : Type :=
| Error (message : JsString)
| TypeError (message : JsString).

Definition message (e : Exn) : JsString :=
  match e with Error m => m | TypeError m => m end.

(** The outcome of a synchronous call: a thrown exception or a value. *)
Definition Res (A : Type) : Type := (Exn + A)%type.

Definition ok {A : Type} (a : A) : Res A := inr a.
Definition throw {A : Type} (e : Exn) : Res A := inl e.

Definition bindRes {A B : Type} (r : Res A) (k : A -> Res B) : Res B :=
  match r with inl e => inl e | inr a => k a end.

(** [arr.map(f)] where [f] may throw: the first exception ends the map. *)
Fixpoint mapRes {A B : Type} (f : A -> Res B) (l : list A) : Res (list B) :=
  match l with
  | [] => ok []
  | a :: l' =>
      bindRes (f a) (fun b => bindRes (mapRes f l') (fun bs => ok (b :: bs)))
  end.

(* ================================================================== *)
(** ** chunkText (route.ts, lines 140-156) *)
(* ================================================================== *)

Definition SPACE : JsString := js " ".

(** The loop [for (let i = 0; i < words.length; i += maxWords)].  It is
    entered only after [maxWords <= 0] has been rejected, so the step is a
    [positive]. *)
Equations? chunkLoop (words : list JsString) (maxWords : positive) (i : nat)
  (chunks : list JsString) : list JsString by wf (length words - i) lt :=
chunkLoop words maxWords i chunks with lt_dec i (length words) := {
  | left _ =>
      chunkLoop words maxWords (i + Pos.to_nat maxWords)
        (chunks ++ [join SPACE (slice words i (i + Pos.to_nat maxWords))]);
  | right _ => chunks }.
Proof. lia. Qed.

(** [text] has type [string] in the source, so of the test
    [!text || typeof text !== 'string'] only emptiness can hold;
    [maxWords] is an integer. *)
Definition chunkText (text : JsString) (maxWords : Z) : Res (list JsString) :=
  if isEmpty text then
    throw (Error (js "Invalid input: text must be a non-empty string"))
  else
    match maxWords with
    | Z0 | Zneg _ =>
        throw (Error (js "Invalid input: maxWords must be a positive number"))
    | Zpos step => ok (chunkLoop (split text) step 0 [])
    end.

(* ================================================================== *)
(** ** cosineSimilarity (route.ts, lines 159-176) *)
(* ================================================================== *)

(** The function with the arithmetic of the real numbers: no rounding, no
    underflow, no overflow.  It serves the statements made under exact
    arithmetic; the function as the engine computes it is
    [Binary64.cosineSimilarity] below. *)

Local Open Scope R_scope.

(** [a.reduce((sum, val, i) => sum + val * b[i], 0)], for [b] as long as [a]. *)
Definition dotProduct (a b : list R) : R :=
  fold_left (fun sum p => sum + fst p * snd p) (combine a b) 0.

(** [a.reduce((sum, val) => sum + val * val, 0)] *)
Definition sumSquares (a : list R) : R :=
  fold_left (fun sum val => sum + val * val) a 0.

(** [Math.sqrt(a.reduce(...))] *)
Definition magnitude (a : list R) : R := sqrt (sumSquares a).

(** The arguments are typed arrays in the source, so of the first test only
    the length tests can hold.  The test [magA === 0 || magB === 0] is
    written as two tests in a row. *)
Definition cosineSimilarity (a b : list R) : Res R :=
  if (length a =? 0)%nat || (length b =? 0)%nat then
    throw (Error (js "Invalid input: vectors must be non-empty arrays"))
  else if negb (length a =? length b)%nat then
    throw (Error (js "Vectors must have the same length"))
  else
    let dot := dotProduct a b in
    let magA := magnitude a in
    let magB := magnitude b in
    if Req_dec_T magA 0 then
      throw (Error (js "Invalid vectors: magnitude cannot be zero"))
    else if Req_dec_T magB 0 then
      throw (Error (js "Invalid vectors: magnitude cannot be zero"))
    else ok (dot / (magA * magB)).

(* ================================================================== *)
(** ** findRelevantChunks (route.ts, lines 179-212) *)
(* ================================================================== *)

(** Again with real scores; [Binary64.findRelevantChunks] below ranks by
    the scores the engine computes.  The two agree on which tests fail for
    reasons of length and on the number of chunks returned; they can
    differ on the order, and on vectors whose magnitude leaves the range of
    the doubles. *)

(** One entry of [similarities]: [{ index, score }]. *)
Record Scored : Type := { index : nat; score : R }.

(** [docEmbeddings.map((embedding, index) => ({ index, score: ... }))],
    counting the positions from [index]; the first throwing call of
    [cosineSimilarity] ends the map. *)
Fixpoint scoreFrom (queryEmbedding : list R) (index : nat)
  (docEmbeddings : list (list R)) : Res (list Scored) :=
  match docEmbeddings with
  | [] => ok []
  | embedding :: rest =>
      bindRes (cosineSimilarity queryEmbedding embedding) (fun s =>
      bindRes (scoreFrom queryEmbedding (S index) rest) (fun r =>
      ok ({| index := index; score := s |} :: r)))
  end.

(** [similarities.sort((a, b) => b.score - a.score)].  [Array.prototype.sort]
    is a stable sort; on real scores the comparator is a consistent order, so
    the result is the one of any stable sort.  It is written here as a stable
    insertion sort: [x] goes behind [y] exactly when the comparator is
    positive on [(x, y)], that is when [score x < score y]. *)
Fixpoint insertDesc (x : Scored) (l : list Scored) : list Scored :=
  match l with
  | [] => [x]
  | y :: l' =>
      if Rlt_dec (score x) (score y) then y :: insertDesc x l' else x :: l
  end.

Fixpoint sortDesc (l : list Scored) : list Scored :=
  match l with
  | [] => []
  | x :: l' => insertDesc x (sortDesc l')
  end.

(** Lines 197-199: the value of [topK] after the range test. *)
Definition clampTopK (topK : Z) (nChunks : nat) : Z :=
  if (topK <=? 0)%Z || (topK >? Z.of_nat nChunks)%Z
  then Z.min 3 (Z.of_nat nChunks)
  else topK.

(** The arguments are typed arrays in the source, so of the [Array.isArray]
    tests only the length tests can hold; [topK] is an integer.  The indices
    kept by the sort are positions of [docChunks], so [docChunks[index]] is
    always defined. *)
Definition findRelevantChunks (queryEmbedding : list R)
  (docEmbeddings : list (list R)) (docChunks : list JsString) (topK : Z)
  : Res (list JsString) :=
  if (length queryEmbedding =? 0)%nat then
    throw (Error (js "Invalid query embedding"))
  else if (length docEmbeddings =? 0)%nat then
    throw (Error (js "Invalid document embeddings"))
  else if (length docChunks =? 0)%nat then
    throw (Error (js "Invalid document chunks"))
  else if negb (length docEmbeddings =? length docChunks)%nat then
    throw (Error (js "Number of embeddings must match number of chunks"))
  else
    let topK := clampTopK topK (length docChunks) in
    bindRes (scoreFrom queryEmbedding 0 docEmbeddings) (fun similarities =>
    let topChunks :=
      map (fun s => nth (index s) docChunks [])
          (slice (sortDesc similarities) 0 (Z.to_nat topK)) in
    ok topChunks).

Local Close Scope R_scope.

(* ================================================================== *)
(** ** cosineSimilarity and findRelevantChunks on doubles *)
(* ================================================================== *)

(** The numbers of the engine are IEEE 754 binary64 values.  The module
    holds the two functions with the operations of the source on [float]:
    [+], [-], [*], [/] and [Math.sqrt] round to nearest (ties to even), a
    result too small for the format is rounded to a subnormal or to zero,
    one too large is infinite, and every comparison with a NaN is false.  [Math.sqrt] is taken to be the
    correctly rounded square root, as the engines compute it. *)
Module Binary64.

Import PrimFloat.

(** [a.reduce((sum, val, i) => sum + val * b[i], 0)], for [b] as long as [a]. *)
Definition dotProduct (a b : list float) : float :=
  fold_left (fun sum p => (sum + fst p * snd p)%float) (combine a b) 0%float.

(** [a.reduce((sum, val) => sum + val * val, 0)] *)
Definition sumSquares (a : list float) : float :=
  fold_left (fun sum val => (sum + val * val)%float) a 0%float.

(** [Math.sqrt(a.reduce(...))] *)
Definition magnitude (a : list float) : float := PrimFloat.sqrt (sumSquares a).

(** Lines 159-176.  [x === 0] is the equality of IEEE: it holds of both
    zeros and of no NaN. *)
Definition cosineSimilarity (a b : list float) : Res float :=
  if (length a =? 0)%nat || (length b =? 0)%nat then
    throw (Error (js "Invalid input: vectors must be non-empty arrays"))
  else if negb (length a =? length b)%nat then
    throw (Error (js "Vectors must have the same length"))
  else
    let dot := dotProduct a b in
    let magA := magnitude a in
    let magB := magnitude b in
    if (magA =? 0)%float || (magB =? 0)%float then
      throw (Error (js "Invalid vectors: magnitude cannot be zero"))
    else ok (dot / (magA * magB))%float.

(** One entry of [similarities]: [{ index, score }]. *)
Record Scored : Type := { index : nat; score : float }.

(** [docEmbeddings.map((embedding, index) => ({ index, score: ... }))],
    counting the positions from [index]. *)
Fixpoint scoreFrom (queryEmbedding : list float) (index : nat)
  (docEmbeddings : list (list float)) : Res (list Scored) :=
  match docEmbeddings with
  | [] => ok []
  | embedding :: rest =>
      bindRes (cosineSimilarity queryEmbedding embedding) (fun s =>
      bindRes (scoreFrom queryEmbedding (S index) rest) (fun r =>
      ok ({| index := index; score := s |} :: r)))
  end.

(** The comparator of line 207: [(a, b) => b.score - a.score]. *)
Definition comparator (a b : Scored) : float := (score b - score a)%float.

(** [similarities.sort(comparator)].  [Array.prototype.sort] is stable and
    puts [a] behind [b] when [comparator(a, b) > 0]; a comparator value of
    NaN counts as zero.  For a consistent comparator every stable sort gives
    the same array, written here as a stable insertion sort.  When the
    comparator is not consistent (a NaN among several scores), the order is
    left to the engine: nothing is stated about the order in that case. *)
Fixpoint insertDesc (x : Scored) (l : list Scored) : list Scored :=
  match l with
  | [] => [x]
  | y :: l' =>
      if (0 <? comparator x y)%float then y :: insertDesc x l' else x :: l
  end.

Fixpoint sortDesc (l : list Scored) : list Scored :=
  match l with
  | [] => []
  | x :: l' => insertDesc x (sortDesc l')
  end.

(** Lines 179-212, with the range test of lines 197-199 as [clampTopK]. *)
Definition findRelevantChunks (queryEmbedding : list float)
  (docEmbeddings : list (list float)) (docChunks : list JsString) (topK : Z)
  : Res (list JsString) :=
  if (length queryEmbedding =? 0)%nat then
    throw (Error (js "Invalid query embedding"))
  else if (length docEmbeddings =? 0)%nat then
    throw (Error (js "Invalid document embeddings"))
  else if (length docChunks =? 0)%nat then
    throw (Error (js "Invalid document chunks"))
  else if negb (length docEmbeddings =? length docChunks)%nat then
    throw (Error (js "Number of embeddings must match number of chunks"))
  else
    let topK := clampTopK topK (length docChunks) in
    bindRes (scoreFrom queryEmbedding 0 docEmbeddings) (fun similarities =>
    let topChunks :=
      map (fun s => nth (index s) docChunks [])
          (slice (sortDesc similarities) 0 (Z.to_nat topK)) in
    ok topChunks).

(* ------------------------------------------------------------------ *)
(** *** Predicates used by the statements on doubles *)

(** The quotient returned by [cosineSimilarity] when no test fails. *)
Definition similarity (a b : list float) : float :=
  (dotProduct a b / (magnitude a * magnitude b))%float.

(** The entries [{ index, score }] of the documents, in document order,
    counting the positions from [i]. *)
Fixpoint scoredFrom (query : list float) (i : nat)
  (docEmbeddings : list (list float)) : list Scored :=
  match docEmbeddings with
  | [] => []
  | e :: rest =>
      {| index := i; score := similarity query e |} :: scoredFrom query (S i) rest
  end.

(** The magnitude of [v], as computed, is not zero. *)
Definition nonZero (v : list float) : Prop := (magnitude v =? 0)%float = false.

(** The inputs on which no test of [findRelevantChunks] fails. *)
Definition validRanking (query : list float) (docEmbeddings : list (list float))
  (docChunks : list JsString) : Prop :=
  query <> []
  /\ nonZero query
  /\ docEmbeddings <> []
  /\ length docEmbeddings = length docChunks
  /\ Forall (fun e => length e = length query /\ nonZero e) docEmbeddings.

(** The comparator puts the score [s] behind the score [t]: [t - s > 0]. *)
Definition below (s t : float) : bool := (0 <? t - s)%float.

(** The comparator puts the entry [x] behind the entry [y]. *)
Definition lower (x y : Scored) : bool := below (score x) (score y).

(** The comparator is a consistent comparator on the entries of [l]: no
    entry is behind itself, and both being behind and not being behind are
    transitive. *)
Definition consistent (l : list Scored) : bool :=
  forallb (fun x =>
    negb (lower x x)
    && forallb (fun y =>
         forallb (fun z =>
           implb (lower x y && lower y z) (lower x z)
           && implb (negb (lower x y) && negb (lower y z)) (negb (lower x z)))
           l) l) l.

(** [x] is ranked before [y]: the comparator puts [y] behind [x], or it
    does not put [x] behind [y] and [x] comes earlier in the document. *)
Definition ranksBefore (x y : Scored) : Prop :=
  lower y x = true \/ (lower x y = false /\ (index x < index y)%nat).

(* ------------------------------------------------------------------ *)
(** *** Sample vectors *)

Definition zero : float := 0%float.
Definition one : float := 1%float.
Definition v_1_1 : list float := [1; 1]%float.
Definition v_2_2 : list float := [2; 2]%float.
Definition v_3_3 : list float := [3; 3]%float.
Definition v_1_1_1 : list float := [1; 1; 1]%float.
Definition v_1_0 : list float := [1; 0]%float.
Definition v_0_1 : list float := [0; 1]%float.
(** [[0.9, 0.1]] *)
Definition v_09_01 : list float :=
  [0x1.ccccccccccccdp-1; 0x1.999999999999ap-4]%float.
(** [[67108864, 67108865]] *)
Definition v_near : list float := [0x1p26; 0x1.0000004p26]%float.
(** [[2 ** -600]] and [[2 ** 600]] *)
Definition tiny : float := 0x1p-600%float.
Definition huge : float := 0x1p600%float.
(** [0.9999999999999998], [1.0000000000000002] and [0.9938837346736189]. *)
Definition belowOne : float := 0x1.ffffffffffffep-1%float.
Definition aboveOne : float := 0x1.0000000000001p0%float.
Definition scenarioScore : float := 0x1.fcde5430e6296p-1%float.

End Binary64.

(* ================================================================== *)
(** ** Values of the request body *)
(* ================================================================== *)

(** What [req.json()] can produce: the values of JSON.  An object is the
    list of its own properties. *)
#[warnings="-register-all"]
Inductive JsValue : Type :=
| JNull
| JBool (b : bool)
| JNumber (n : PrimFloat.float)
| JString (s : JsString)
| JArray (elems : list JsValue)
| JObject (props : list (JsString * JsValue)).

Definition jsEqb (s t : JsString) : bool :=
  if list_eq_dec N.eq_dec s t then true else false.

(** [obj[key]] on the own properties; [None] is [undefined]. *)
Fixpoint getOwn (key : JsString) (props : list (JsString * JsValue))
  : option JsValue :=
  match props with
  | [] => None
  | (k, v) :: rest => if jsEqb k key then Some v else getOwn key rest
  end.

(** Truthiness, as tested by [!v]; [None] is [undefined]. *)
Definition truthy (v : option JsValue) : bool :=
  match v with
  | None | Some JNull => false
  | Some (JBool b) => b
  | Some (JNumber n) => negb (PrimFloat.eqb n PrimFloat.zero || PrimFloat.is_nan n)
  | Some (JString s) => negb (isEmpty s)
  | Some (JArray _) | Some (JObject _) => true
  end.

(** [const { documents, questions } = body]: [null] cannot be destructured;
    an object gives its own properties (no property of [Object.prototype] is
    called [documents] or [questions]); any other value has neither. *)
Definition destructure (body : JsValue)
  : Res (option JsValue * option JsValue) :=
  match body with
  | JNull =>
      throw (TypeError (js "Cannot destructure property 'documents' of '(intermediate value)' as it is null."))
  | JObject props =>
      ok (getOwn (js "documents") props, getOwn (js "questions") props)
  | _ => ok (None, None)
  end.

(** [question.trim()]: only a string has a callable [trim]; on [null] the
    property access throws, on every other value [trim] is [undefined] (or,
    for an object with an own [trim], a value of JSON) and the call throws. *)
Definition callTrim (question : JsValue) : Res JsString :=
  match question with
  | JString s => ok (trim s)
  | JNull =>
      throw (TypeError (js "Cannot read properties of null (reading 'trim')"))
  | _ => throw (TypeError (js "question.trim is not a function"))
  end.

Section Stringify.

(** [Number::toString], the decimal rendering of a double, is left
    abstract. *)
Variable Number_toString : PrimFloat.float -> JsString.

(** The conversion to string made by a template literal [`${v}`].
    - An array is converted by [Array.prototype.join]: the elements are
      converted in order, [null] as the empty string, separated by commas.
    - An object is converted by [ToPrimitive]: an own [toString] shadows
      [Object.prototype.toString] and, being a value of JSON, is not
      callable; [valueOf] is then either an own property that is not
      callable or [Object.prototype.valueOf], which returns the object.
      In both cases no primitive is obtained and a [TypeError] is thrown.
      Without an own [toString] the result is ["[object Object]"]. *)
Fixpoint ToString (v : JsValue) : Res JsString :=
  match v with
  | JNull => ok (js "null")
  | JBool true => ok (js "true")
  | JBool false => ok (js "false")
  | JNumber n => ok (Number_toString n)
  | JString s => ok s
  | JArray elems =>
      bindRes
        ((fix each (l : list JsValue) : Res (list JsString) :=
            match l with
            | [] => ok []
            | e :: l' =>
                bindRes (match e with JNull => ok [] | _ => ToString e end)
                  (fun s => bindRes (each l') (fun r => ok (s :: r)))
            end) elems)
        (fun parts => ok (join (js ",") parts))
  | JObject props =>
      match getOwn (js "toString") props with
      | Some _ =>
          throw (TypeError (js "Cannot convert object to primitive value"))
      | None => ok (js "[object Object]")
      end
  end.

End Stringify.

(* ================================================================== *)
(** ** Effects: the collaborators and the trace of their calls *)
(* ================================================================== *)

(** What the handler reads of the response of [fetch]. *)
Record HttpResponse : Type := {
  res_ok : bool;                          (* pdfRes.ok *)
  res_status : PrimFloat.float;           (* pdfRes.status *)
  res_text : Res JsString;                (* await pdfRes.text() *)
  res_contentType : option JsString;      (* pdfRes.headers.get('content-type') *)
  res_arrayBuffer : Res (list Byte.byte)  (* await pdfRes.arrayBuffer() *)
}.

(** One entry of the trace per call that leaves the handler. *)
Inductive Event : Type :=
| EvFetch (documents : JsValue)
| EvPdf (buffer : list Byte.byte)
| EvEmbed (batch : list JsString)
| EvPause (ms : Z)
| EvAsk (question : JsString) (chunks : list JsString).

(** The state threaded through an asynchronous function: the world of the
    collaborators and the calls made so far, oldest first. *)
Record St (W : Type) : Type := { world : W; trace : list Event }.

Arguments world {W} _.
Arguments trace {W} _.
Arguments Build_St {W} _ _.

(** An asynchronous function: it runs from a state to a state and either
    rejects with an exception or resolves with a value. *)
Definition M (W A : Type) : Type := St W -> St W * Res A.

Definition ret {W A : Type} (a : A) : M W A := fun s => (s, ok a).

Definition throwM {W A : Type} (e : Exn) : M W A := fun s => (s, throw e).

Definition bind {W A B : Type} (m : M W A) (k : A -> M W B) : M W B :=
  fun s => match m s with
           | (s', inl e) => (s', inl e)
           | (s', inr a) => k a s'
           end.

(** [try { m } catch (e) { h e }] *)
Definition tryCatch {W A : Type} (m : M W A) (h : Exn -> M W A) : M W A :=
  fun s => match m s with
           | (s', inl e) => h e s'
           | (s', inr a) => (s', inr a)
           end.

Definition liftRes {W A : Type} (r : Res A) : M W A := fun s => (s, r).

(** A call of a collaborator: the event is recorded, the world moves on. *)
Definition call {W A : Type} (ev : Event) (f : W -> W * Res A) : M W A :=
  fun s => let (w', r) := f (world s) in
           ({| world := w'; trace := trace s ++ [ev] |}, r).

(** [await new Promise(resolve => setTimeout(resolve, ms))] *)
Definition pause {W : Type} (ms : Z) : M W unit :=
  fun s => ({| world := world s; trace := trace s ++ [EvPause ms] |}, ok tt).

Declare Scope js_scope.
Delimit Scope js_scope with js_m.
Notation "x <- m ;; k" := (bind m (fun x => k))
  (at level 61, m at next level, right associativity) : js_scope.
Notation "m ;;; k" := (bind m (fun _ => k))
  (at level 61, right associativity) : js_scope.

(** The body of a response made by [NextResponse.json]. *)
Inductive ResponseBody : Type :=
| ErrorBody (error : JsString)
| AnswersBody (answers : list JsString).

Record Response : Type := { body : ResponseBody; status : Z }.

Section Handler.

Local Open Scope js_scope.

Variable W : Type.

(** The collaborators.  Each takes the world to a new world and a result. *)
Variable fetch : JsValue -> W -> W * Res HttpResponse.
Variable pdf : list Byte.byte -> W -> W * Res JsString.
(** [openai.embeddings.create({ model, input: batch })] followed by
    [res.data.map((d) => d.embedding)]. *)
Variable embeddings_create : list JsString -> W -> W * Res (list (list R)).
(** [askOpenRouter] of [@/utils/ai]. *)
Variable askOpenRouter : JsString -> list JsString -> W -> W * Res JsString.
Variable Number_toString : PrimFloat.float -> JsString.

(* ------------------------------------------------------------------ *)
(** *** getEmbeddings (route.ts, lines 215-245) *)

Definition batchSize : nat := 10.

(** The loop [for (let i = 0; i < texts.length; i += batchSize)], as a
    function of the state at its entry. *)
Equations? embedLoop (texts : list JsString) (i : nat)
  (embeddings : list (list R)) (s : St W) : St W * Res (list (list R))
  by wf (length texts - i) lt :=
embedLoop texts i embeddings s with lt_dec i (length texts) := {
  | left _
      with call (EvEmbed (slice texts i (i + batchSize)))
                (embeddings_create (slice texts i (i + batchSize))) s := {
      | (s1, inl e) => (s1, inl e);
      | (s1, inr res) =>
          embedLoop texts (i + batchSize) (embeddings ++ res)
            (if lt_dec (i + batchSize) (length texts)
             then fst (pause 200 s1) else s1) };
  | right _ => (s, ok embeddings) }.
Proof. unfold batchSize. lia. Qed.

(** [texts] has type [string[]] in the source, so of the first test only
    the length test can hold.  The [catch] clause replaces every exception
    of the body, the one of the first test included.  It logs
    [error.message] first (line 242); what is caught is an [Exn], an object
    with a message, so that reading does not throw. *)
Definition getEmbeddings (texts : list JsString) : M W (list (list R)) :=
  tryCatch
    (if (length texts =? 0)%nat then
       throwM (Error (js "Invalid input: texts must be a non-empty array of strings"))
     else embedLoop texts 0 [])
    (fun error => throwM (Error (js "Failed to generate embeddings"))).

(* ------------------------------------------------------------------ *)
(** *** POST (route.ts, lines 15-137) *)

Definition json (b : ResponseBody) (st : Z) : Response :=
  {| body := b; status := st |}.

(** Step 1 (lines 32-63): the body of the first inner [try]. *)
Definition downloadPdf (documents : JsValue) : M W JsString :=
  pdfRes <- call (EvFetch documents) (fetch documents) ;;
  (if negb (res_ok pdfRes) then
     let errorText :=
       match res_text pdfRes with
       | inr t => t
       | inl _ => js "No error details available"
       end in
     throwM (Error (js "Failed to download document. Status: "
                    ++ Number_toString (res_status pdfRes)
                    ++ js ", Details: " ++ errorText))
   else ret tt) ;;;
  let contentType := res_contentType pdfRes in
  (if match contentType with
      | Some c => negb (includes c (js "application/pdf"))
      | None => true
      end
   then
     throwM (Error (js "Invalid content type: "
                    ++ match contentType with Some c => c | None => js "null" end
                    ++ js ". Expected PDF document."))
   else ret tt) ;;;
  pdfBuffer <- liftRes (res_arrayBuffer pdfRes) ;;
  (if (length pdfBuffer =? 0)%nat then
     throwM (Error (js "Received empty PDF buffer"))
   else ret tt) ;;;
  fullText <- call (EvPdf pdfBuffer) (pdf pdfBuffer) ;;
  if isEmpty (trim fullText) then
    throwM (Error (js "PDF parsing succeeded but extracted text is empty"))
  else ret fullText.

(** One turn of [for (const question of questions)] (lines 104-128).  Each
    path of the [try] block pushes as its last action, so the array seen by
    the [catch] clause is the one the turn started with. *)
Definition processQuestion (chunks : list JsString)
  (chunkEmbeddings : list (list R)) (results : list JsString)
  (question : JsValue) : M W (list JsString) :=
  tryCatch
    (trimmed <- liftRes (callTrim question) ;;
     if isEmpty trimmed then
       ret (results ++ [js "Error: Empty question provided"])
     else
       (* [trim] has returned, so [question] is a string *)
       let text := match question with JString q => q | _ => [] end in
       vectors <- getEmbeddings [text] ;;
       (* [const [questionEmbedding] = ...]: [undefined] on an empty array,
          which the first test of [findRelevantChunks] rejects *)
       relevantChunks <-
         liftRes match vectors with
                 | [] => throw (Error (js "Invalid query embedding"))
                 | questionEmbedding :: _ =>
                     findRelevantChunks questionEmbedding chunkEmbeddings
                       chunks 3
                 end ;;
       answer <- call (EvAsk text relevantChunks)
                      (askOpenRouter text relevantChunks) ;;
       ret (results ++ [answer]))
    (fun error =>
       (* console.error(`... "${question}":`, error) *)
       liftRes (ToString Number_toString question) ;;;
       shown <- liftRes (ToString Number_toString question) ;;
       ret (results ++ [js "Error: Failed to process the question: " ++ shown])).

Fixpoint questionLoop (chunks : list JsString)
  (chunkEmbeddings : list (list R)) (results : list JsString)
  (questions : list JsValue) : M W (list JsString) :=
  match questions with
  | [] => ret results
  | question :: rest =>
      results' <- processQuestion chunks chunkEmbeddings results question ;;
      questionLoop chunks chunkEmbeddings results' rest
  end.

Definition invalidRequest : Response :=
  json (ErrorBody (js "Invalid request. Please provide documents URL and questions array.")) 400.

(** [Array.isArray(v)] and, for an array, its elements. *)
Definition isArray (v : option JsValue) : bool :=
  match v with Some (JArray _) => true | _ => false end.

Definition elements (v : option JsValue) : list JsValue :=
  match v with Some (JArray l) => l | _ => [] end.

(** [request] is the outcome of [await req.json()].  An inner [try] that
    ends the handler from its [catch] clause yields [inl] of that response.
    Past the validation [documents] is truthy, hence defined. *)
Definition POST (request : Res JsValue) : M W Response :=
  tryCatch
    (parsed <- liftRes request ;;
     fields <- liftRes (destructure parsed) ;;
     let (documents, questions) := fields in
     if negb (truthy documents) || negb (truthy questions)
        || negb (isArray questions) || (length (elements questions) =? 0)%nat
     then ret invalidRequest
     else
       let url := match documents with Some d => d | None => JNull end in
       (* 1. Download the PDF *)
       step1 <- tryCatch
         (fullText <- downloadPdf url ;; ret (inr fullText))
         (fun error => ret (inl (json
            (ErrorBody (js "Failed to fetch or parse the PDF document: "
                        ++ message error)) 500))) ;;
       match step1 with
       | inl response => ret response
       | inr fullText =>
       (* 2. Chunk the document *)
       step2 <- tryCatch
         (if isEmpty (trim fullText) then
            throwM (Error (js "Extracted PDF text is empty"))
          else chunks <- liftRes (chunkText fullText 500) ;; ret (inr chunks))
         (fun error => ret (inl (json
            (ErrorBody (js "Failed to process the document content.")) 500))) ;;
       match step2 with
       | inl response => ret response
       | inr chunks =>
       (* 3. Create embeddings for chunks *)
       step3 <- tryCatch
         (chunkEmbeddings <- getEmbeddings chunks ;; ret (inr chunkEmbeddings))
         (fun error => ret (inl (json
            (ErrorBody (js "Failed to generate document embeddings.")) 500))) ;;
       match step3 with
       | inl response => ret response
       | inr chunkEmbeddings =>
           results <- questionLoop chunks chunkEmbeddings []
                        (elements questions) ;;
           ret (json (AnswersBody results) 200)
       end end end)
    (fun err =>
       ret (json (ErrorBody (if isEmpty (message err)
                             then js "Internal server error"
                             else message err)) 500)).

End Handler.

Arguments embedLoop {W} _ _ _ _ _.
Arguments getEmbeddings {W} _ _ _.
Arguments downloadPdf {W} _ _ _ _ _.
Arguments processQuestion {W} _ _ _ _ _ _ _ _.
Arguments questionLoop {W} _ _ _ _ _ _ _ _.
Arguments POST {W} _ _ _ _ _ _ _.

(* ================================================================== *)
(** ** A sample world *)
(* ================================================================== *)

(** Collaborators that always succeed, over a world without state: the
    document is served as a PDF whose text is one sentence, every text is
    embedded as the vector [[1]], every question is answered ["Yes."]. *)
Module Sample.

Module Literals.
Import PrimFloat.
Definition status200 : float := 200%float.
Definition one : float := 1%float.
End Literals.

Definition pdfBytes : list Byte.byte := [Byte.x25; Byte.x50; Byte.x44; Byte.x46].

Definition fetch (documents : JsValue) (w : unit) : unit * Res HttpResponse :=
  (w, ok {| res_ok := true;
            res_status := Literals.status200;
            res_text := ok [];
            res_contentType := Some (js "application/pdf");
            res_arrayBuffer := ok pdfBytes |}).

Definition pdf (buffer : list Byte.byte) (w : unit) : unit * Res JsString :=
  (w, ok (js "Fire damage is covered.")).

Definition embedOne (text : JsString) : list R := [1%R].

Definition embeddings_create (batch : list JsString) (w : unit)
  : unit * Res (list (list R)) :=
  (w, ok (map embedOne batch)).

Definition askOpenRouter (question : JsString) (chunks : list JsString)
  (w : unit) : unit * Res JsString :=
  (w, ok (js "Yes.")).

(** Stands for [Number::toString]; right on the only number used below. *)
Definition Number_toString (n : PrimFloat.float) : JsString := js "1".

Definition start : St unit := {| world := tt; trace := [] |}.

Definition url : JsValue := JString (js "https://example.com/policy.pdf").

(** [{"toString": 1}] *)
Definition unprintable : JsValue :=
  JObject [(js "toString", JNumber Literals.one)].

(** [{"documents": "https://example.com/policy.pdf", "questions": qs}] *)
Definition request (questions : list JsValue) : Res JsValue :=
  ok (JObject [(js "documents", url); (js "questions", JArray questions)]).

Definition run (questions : list JsValue) : St unit * Res Response :=
  POST fetch pdf embeddings_create askOpenRouter Number_toString
    (request questions) start.

(** A server that answers with a page of HTML. *)
Definition fetchHtml (documents : JsValue) (w : unit)
  : unit * Res HttpResponse :=
  (w, ok {| res_ok := true;
            res_status := Literals.status200;
            res_text := ok [];
            res_contentType := Some (js "text/html");
            res_arrayBuffer := ok pdfBytes |}).

(** An embedding service that rejects every call. *)
Definition embeddingsDown (batch : list JsString) (w : unit)
  : unit * Res (list (list R)) :=
  (w, throw (Error (js "429 Too Many Requests"))).

(** An embedding service with a quota: the world counts the calls made,
    the first two are answered and every later one is rejected, whatever
    the batch. *)
Definition embeddingsQuota (batch : list JsString) (w : nat)
  : nat * Res (list (list R)) :=
  if (w <? 2)%nat then (S w, ok (map embedOne batch))
  else (S w, throw (Error (js "429 Too Many Requests"))).

Definition startQuota : St nat := {| world := 0%nat; trace := [] |}.

(** The state after step 1: the document was fetched and parsed. *)
Definition downloaded : St unit :=
  {| world := tt; trace := [EvFetch url; EvPdf pdfBytes] |}.

(** The state when the loop over the questions is entered: the document
    was fetched and parsed, and its only chunk was embedded. *)
Definition atLoop : St unit :=
  {| world := tt;
     trace := [EvFetch url; EvPdf pdfBytes;
               EvEmbed [js "Fire damage is covered."]] |}.

End Sample.

(* ================================================================== *)
(** ** Predicates used by the statements *)
(* ================================================================== *)

(** No character of [w] is white space. *)
Definition noSpace (w : JsString) : Prop :=
  forallb (fun c => negb (isSpace c)) w = true.

(** Every character of [s] is white space. *)
Definition allSpace (s : JsString) : Prop := forallb isSpace s = true.

(** Every piece but the last is non-empty. *)
Fixpoint nonEmptyButLast (ws : list JsString) : Prop :=
  match ws with
  | [] => True
  | w :: rest =>
      match rest with [] => True | _ :: _ => w <> [] /\ nonEmptyButLast rest end
  end.

(** Only the first and the last piece may be empty. *)
Definition innerNonEmpty (ws : list JsString) : Prop :=
  match ws with [] => True | _ :: rest => nonEmptyButLast rest end.

(** The shape of a word sequence produced by [split]. *)
Definition wordSequence (ws : list JsString) : Prop :=
  ws <> [] /\ Forall noSpace ws /\ innerNonEmpty ws.

(** Windows of [n] elements: none is empty, every window but the last has
    exactly [n] elements, the last has at most [n]. *)
Fixpoint fullButLast {A : Type} (n : nat) (wins : list (list A)) : Prop :=
  match wins with
  | [] => True
  | w :: rest =>
      match rest with
      | [] => (1 <= length w <= n)%nat
      | _ :: _ => length w = n /\ fullButLast n rest
      end
  end.

(** [w] in front of the first piece of [l]. *)
Definition prepend (w : JsString) (l : list JsString) : list JsString :=
  match l with x :: xs => (w ++ x) :: xs | [] => [w] end.

(** A vector with a component different from zero. *)
Definition nonZero (v : list R) : Prop := Exists (fun x => x <> 0%R) v.

(** The quotient returned by [cosineSimilarity] when no test fails. *)
Definition similarity (a b : list R) : R :=
  (dotProduct a b / (magnitude a * magnitude b))%R.

(** [x] is ranked before [y]: a higher score, or the same score and an
    earlier position in the document. *)
Definition ranksBefore (x y : Scored) : Prop :=
  (score y < score x)%R \/ (score x = score y /\ (index x < index y)%nat).

(** The entries [{ index, score }] of the documents, in document order,
    counting the positions from [i]. *)
Fixpoint scoredFrom (query : list R) (i : nat) (docEmbeddings : list (list R))
  : list Scored :=
  match docEmbeddings with
  | [] => []
  | e :: rest =>
      {| index := i; score := similarity query e |} :: scoredFrom query (S i) rest
  end.

(** A valid input of [findRelevantChunks]: a non-zero query, as many
    document vectors as chunks and at least one, every document vector
    non-zero and of the dimension of the query. *)
Definition validRanking (query : list R) (docEmbeddings : list (list R))
  (docChunks : list JsString) : Prop :=
  nonZero query
  /\ docEmbeddings <> []
  /\ length docEmbeddings = length docChunks
  /\ Forall (fun e => length e = length query /\ nonZero e) docEmbeddings.

(** The calls made by [getEmbeddings] for the batches [batches]: one call of
    the embedding endpoint per batch, a pause of 200 ms between two calls. *)
Fixpoint batchCalls (batches : list (list JsString)) : list Event :=
  match batches with
  | [] => []
  | b :: rest =>
      match rest with
      | [] => [EvEmbed b]
      | _ :: _ => EvEmbed b :: EvPause 200 :: batchCalls rest
      end
  end.

(** [entry] is a result for [question]: the placeholder of an empty
    question, the placeholder of a failed question, or an answer of
    [askOpenRouter] to the question. *)
Definition entryFor {W : Type}
  (askOpenRouter : JsString -> list JsString -> W -> W * Res JsString)
  (Number_toString : PrimFloat.float -> JsString)
  (question : JsValue) (entry : JsString) : Prop :=
  (entry = js "Error: Empty question provided"
   /\ exists q, question = JString q /\ isEmpty (trim q) = true)
  \/ (exists shown,
        ToString Number_toString question = ok shown
        /\ entry = js "Error: Failed to process the question: " ++ shown)
  \/ (exists q chunks w w',
        question = JString q /\ isEmpty (trim q) = false
        /\ askOpenRouter q chunks w = (w', ok entry)).

(** Every white-space character of [s] is a plain space, and no two
    white-space characters are adjacent. *)
Fixpoint singleSpaced (s : JsString) : Prop :=
  match s with
  | [] => True
  | c :: s' =>
      (isSpace c = true ->
       c = 32%N /\ match s' with [] => True | d :: _ => isSpace d = false end)
      /\ singleSpaced s'
  end.

(** The value is converted to a string without a [TypeError]: no object
    in it, at any depth of arrays, has an own [toString]. *)
Fixpoint printable (v : JsValue) : bool :=
  match v with
  | JArray elems => forallb printable elems
  | JObject props =>
      match getOwn (js "toString") props with Some _ => false | None => true end
  | _ => true
  end.

Definition isEmbed (ev : Event) : bool :=
  match ev with EvEmbed _ => true | _ => false end.

Definition isPause (ev : Event) : bool :=
  match ev with EvPause _ => true | _ => false end.

(** The batch number [j] of [texts], counting from the text at [i]. *)
Definition batchAt (texts : list JsString) (i j : nat) : list JsString :=
  slice texts (i + batchSize * j) (i + batchSize * j + batchSize).

(** The response of [fetch] passes the three tests of step 1 of [POST]. *)
Definition accepted (r : HttpResponse) (buffer : list Byte.byte) : Prop :=
  res_ok r = true
  /\ (exists c, res_contentType r = Some c
                /\ includes c (js "application/pdf") = true)
  /\ res_arrayBuffer r = ok buffer
  /\ buffer <> [].

(* ================================================================== *)
(** ** Properties of split and join *)
(* ================================================================== *)

Lemma splitFrom_not_nil (b : bool) (s : JsString) : splitFrom b s <> [].
Proof.
  revert b; induction s as [|c s IH]; intros b; simpl; [discriminate|].
  destruct (isSpace c).
  - destruct b; [apply IH | discriminate].
  - destruct (splitFrom false s); discriminate.
Qed.

Lemma splitFrom_noSpace (b : bool) (s : JsString) :
  Forall noSpace (splitFrom b s).
Proof.
  revert b; induction s as [|c s IH]; intros b; simpl.
  - repeat constructor.
  - destruct (isSpace c) eqn:Hc.
    + destruct b; [apply IH | constructor; [reflexivity | apply IH]].
    + specialize (IH false). destruct (splitFrom false s) as [|w ws].
      * repeat constructor. unfold noSpace; simpl. now rewrite Hc.
      * inversion IH; subst. constructor; [|assumption].
        unfold noSpace in *; simpl. now rewrite Hc.
Qed.

Lemma nonEmptyButLast_inner (ws : list JsString) :
  nonEmptyButLast ws -> innerNonEmpty ws.
Proof.
  destruct ws as [|w [|w' rest]]; simpl; auto. intros [_ H]; exact H.
Qed.

Lemma splitFrom_shape (s : JsString) :
  innerNonEmpty (splitFrom false s) /\ nonEmptyButLast (splitFrom true s).
Proof.
  induction s as [|c s [IHf IHt]]; simpl; [auto|].
  destruct (isSpace c).
  - split; assumption.
  - pose proof (splitFrom_not_nil false s) as Hne.
    destruct (splitFrom false s) as [|w ws]; [contradiction|].
    simpl in *. split; [assumption|].
    destruct ws; [exact I | split; [discriminate | assumption]].
Qed.

Lemma split_wordSequence (s : JsString) : wordSequence (split s).
Proof.
  unfold wordSequence, split. split; [apply splitFrom_not_nil|].
  split; [apply splitFrom_noSpace | apply splitFrom_shape].
Qed.

Lemma splitFrom_true_nonspace (c : N) (s : JsString) :
  isSpace c = false -> splitFrom true (c :: s) = splitFrom false (c :: s).
Proof. intros H; simpl; now rewrite H. Qed.

Lemma splitFrom_false_app (w s : JsString) :
  noSpace w -> splitFrom false (w ++ s) = prepend w (splitFrom false s).
Proof.
  unfold noSpace. induction w as [|c w IH]; simpl; intros H.
  - pose proof (splitFrom_not_nil false s). now destruct (splitFrom false s).
  - apply andb_prop in H as [Hc Hw]. apply negb_true_iff in Hc.
    rewrite Hc, (IH Hw). now destruct (splitFrom false s).
Qed.

Lemma isSpace_SPACE : SPACE = [32%N] /\ isSpace 32 = true.
Proof. split; reflexivity. Qed.

(** Re-splitting a joined word sequence gives the sequence back. *)
Lemma splitFrom_true_join (ws : list JsString) :
  ws <> [] -> Forall noSpace ws -> nonEmptyButLast ws ->
  splitFrom true (join SPACE ws) = ws.
Proof.
  induction ws as [|w rest IH]; [congruence|]. intros _ Hns Hne.
  inversion Hns as [|? ? Hw Hrest]; subst.
  destruct rest as [|w' rest'].
  - simpl. destruct w as [|c w]; [reflexivity|].
    assert (Hc : isSpace c = false).
    { unfold noSpace in Hw; simpl in Hw. apply andb_prop in Hw as [Hc _].
      now apply negb_true_iff in Hc. }
    rewrite (splitFrom_true_nonspace _ _ Hc).
    rewrite <- (app_nil_r (c :: w)) at 1.
    rewrite (splitFrom_false_app _ [] Hw). simpl. now rewrite app_nil_r.
  - destruct Hne as [Hw0 Hne].
    change (join SPACE (w :: w' :: rest'))
      with (w ++ SPACE ++ join SPACE (w' :: rest')).
    destruct w as [|c w]; [congruence|].
    assert (Hc : isSpace c = false).
    { unfold noSpace in Hw; simpl in Hw. apply andb_prop in Hw as [Hc _].
      now apply negb_true_iff in Hc. }
    change ((c :: w) ++ SPACE ++ join SPACE (w' :: rest'))
      with (c :: (w ++ SPACE ++ join SPACE (w' :: rest'))).
    rewrite (splitFrom_true_nonspace _ _ Hc).
    change (c :: (w ++ SPACE ++ join SPACE (w' :: rest')))
      with ((c :: w) ++ SPACE ++ join SPACE (w' :: rest')).
    rewrite (splitFrom_false_app _ _ Hw).
    change (SPACE ++ join SPACE (w' :: rest'))
      with (32%N :: join SPACE (w' :: rest')).
    cbn [splitFrom]. change (isSpace 32) with true. cbn iota.
    rewrite IH by (assumption || discriminate).
    simpl. now rewrite app_nil_r.
Qed.

Lemma split_join (ws : list JsString) :
  wordSequence ws -> split (join SPACE ws) = ws.
Proof.
  intros (Hne & Hns & Hin). unfold split.
  destruct ws as [|w rest]; [congruence|].
  inversion Hns as [|? ? Hw Hrest]; subst.
  destruct rest as [|w' rest'].
  - simpl. rewrite <- (app_nil_r w) at 1.
    rewrite (splitFrom_false_app _ [] Hw). simpl. now rewrite app_nil_r.
  - change (join SPACE (w :: w' :: rest'))
      with (w ++ 32%N :: join SPACE (w' :: rest')).
    rewrite (splitFrom_false_app _ _ Hw).
    cbn [splitFrom]. change (isSpace 32) with true. cbn iota.
    rewrite splitFrom_true_join by (assumption || discriminate).
    simpl. now rewrite app_nil_r.
Qed.

(* ================================================================== *)
(** ** Properties of chunkText *)
(* ================================================================== *)

Lemma slice_length {A : Type} (l : list A) (i n : nat) :
  length (slice l i (i + n)) = Nat.min n (length l - i).
Proof.
  unfold slice. rewrite length_firstn, length_skipn.
  replace (i + n - i)%nat with n by lia. reflexivity.
Qed.

Lemma slice_app_skipn {A : Type} (l : list A) (i n : nat) :
  slice l i (i + n) ++ skipn (i + n) l = skipn i l.
Proof.
  unfold slice. replace (i + n - i)%nat with n by lia.
  rewrite (Nat.add_comm i n), <- skipn_skipn. apply firstn_skipn.
Qed.

(** The loop appends to [chunks] the joined windows of [words] from [i] on. *)
Lemma chunkLoop_windows (words : list JsString) (maxWords : positive)
  (i : nat) (chunks : list JsString) :
  exists wins : list (list JsString),
    chunkLoop words maxWords i chunks = chunks ++ map (join SPACE) wins
    /\ concat wins = skipn i words
    /\ fullButLast (Pos.to_nat maxWords) wins
    /\ (wins = [] <-> (length words <= i)%nat).
Proof.
  funelim (chunkLoop words maxWords i chunks).
  - destruct H as (wins & Hloop & Hcat & Hfull & Hnil).
    exists (slice words i (i + Pos.to_nat maxWords) :: wins).
    split; [|split; [|split]].
    + rewrite Hloop, <- app_assoc. reflexivity.
    + simpl. rewrite Hcat. apply slice_app_skipn.
    + pose proof (slice_length words i (Pos.to_nat maxWords)) as Hlen.
      pose proof (Pos2Nat.is_pos maxWords).
      simpl. destruct wins as [|w' wins'].
      * lia.
      * split; [|exact Hfull].
        assert (~ (length words <= i + Pos.to_nat maxWords)%nat) by
          (intros Hle; apply Hnil in Hle; discriminate).
        lia.
    + split; [discriminate | lia].
  - exists []. rewrite app_nil_r. repeat split; try lia.
    symmetry. apply skipn_all2. lia.
Qed.

Lemma nonEmptyButLast_app_r (a b : list JsString) :
  nonEmptyButLast (a ++ b) -> nonEmptyButLast b.
Proof.
  induction a as [|x a IH]; simpl; [auto|].
  destruct (a ++ b) eqn:E.
  - apply app_eq_nil in E as [_ ->]. intros _; exact I.
  - intros [_ H]. apply IH, H.
Qed.

Lemma nonEmptyButLast_app_l (a b : list JsString) :
  nonEmptyButLast (a ++ b) -> nonEmptyButLast a.
Proof.
  induction a as [|x a IH]; simpl; [auto|].
  destruct a as [|y a']; [auto|]. simpl app at 1.
  intros [Hx H]. split; [exact Hx | apply IH, H].
Qed.

Lemma innerNonEmpty_app_l (a b : list JsString) :
  innerNonEmpty (a ++ b) -> innerNonEmpty a.
Proof. destruct a; simpl; [auto | apply nonEmptyButLast_app_l]. Qed.

Lemma innerNonEmpty_app_r (a b : list JsString) :
  innerNonEmpty (a ++ b) -> innerNonEmpty b.
Proof.
  destruct a; simpl; [auto|].
  intros H. apply nonEmptyButLast_inner. exact (nonEmptyButLast_app_r _ _ H).
Qed.

Lemma fullButLast_not_nil {A : Type} (n : nat) (wins : list (list A)) :
  (1 <= n)%nat -> fullButLast n wins -> Forall (fun w => w <> []) wins.
Proof.
  intros Hn. induction wins as [|w rest IH]; simpl; [constructor|].
  destruct rest as [|w' rest'].
  - intros H. constructor; [|constructor]. destruct w; simpl in H; [lia | discriminate].
  - intros [Hlen H]. constructor; [|apply IH, H].
    destruct w; simpl in Hlen; [lia | discriminate].
Qed.

Lemma fullButLast_bounds {A : Type} (n : nat) (wins : list (list A)) :
  fullButLast n wins ->
  (forall i, (S i < length wins)%nat -> length (nth i wins []) = n)
  /\ (forall w, In w wins -> (1 <= length w <= n)%nat).
Proof.
  induction wins as [|w rest IH]; simpl.
  - intros _. split; [intros i Hi; lia | intros w []].
  - destruct rest as [|w' rest'].
    + intros H. split; [intros i Hi; simpl in Hi; lia|].
      intros x [<-|[]]. exact H.
    + intros [Hlen H]. destruct (IH H) as [IH1 IH2]. split.
      * intros [|i] Hi; [exact Hlen|]. apply IH1. simpl in *. lia.
      * intros x [<-|Hx]; [|apply IH2, Hx].
        pose proof (IH2 w' (or_introl eq_refl)). lia.
Qed.

(** Every window cut from a word sequence is a word sequence. *)
Lemma windows_wordSequence (wins : list (list JsString)) :
  Forall (fun w => w <> []) wins ->
  Forall noSpace (concat wins) -> innerNonEmpty (concat wins) ->
  Forall wordSequence wins.
Proof.
  induction wins as [|w rest IH]; intros Hne Hns Hin; [constructor|].
  inversion Hne; subst. simpl in Hns, Hin.
  apply Forall_app in Hns as [Hw Hrest]. constructor.
  - split; [assumption|]. split; [assumption|].
    exact (innerNonEmpty_app_l _ _ Hin).
  - apply IH; [assumption | assumption | exact (innerNonEmpty_app_r _ _ Hin)].
Qed.

Lemma map_split_join (wins : list (list JsString)) :
  Forall wordSequence wins -> map split (map (join SPACE) wins) = wins.
Proof.
  induction 1 as [|w rest Hw _ IH]; simpl; [reflexivity|].
  now rewrite (split_join _ Hw), IH.
Qed.

Lemma join_app (sep : JsString) (a b : list JsString) :
  a <> [] -> b <> [] -> join sep (a ++ b) = join sep a ++ sep ++ join sep b.
Proof.
  intros Ha Hb. induction a as [|x a IH]; [congruence|].
  destruct a as [|y a'].
  - simpl. destruct b; [congruence | reflexivity].
  - change (join sep ((x :: y :: a') ++ b))
      with (x ++ sep ++ join sep ((y :: a') ++ b)).
    rewrite IH by discriminate.
    change (join sep (x :: y :: a')) with (x ++ sep ++ join sep (y :: a')).
    now rewrite <- !app_assoc.
Qed.

(** Joining the chunks with single spaces gives the joined word sequence. *)
Lemma join_windows (wins : list (list JsString)) :
  Forall (fun w => w <> []) wins ->
  join SPACE (map (join SPACE) wins) = join SPACE (concat wins).
Proof.
  induction 1 as [|w rest Hw Hrest IH]; [reflexivity|].
  destruct rest as [|w' rest'].
  - simpl. now rewrite app_nil_r.
  - change (join SPACE (map (join SPACE) (w :: w' :: rest')))
      with (join SPACE w ++ SPACE ++ join SPACE (map (join SPACE) (w' :: rest'))).
    rewrite IH.
    change (concat (w :: w' :: rest')) with (w ++ concat (w' :: rest')).
    rewrite (join_app SPACE w (concat (w' :: rest')));
      [reflexivity | assumption |].
    inversion Hrest; subst. destruct w'; [congruence | discriminate].
Qed.

(** The chunks of a non-empty text, for a positive [maxWords]. *)
Lemma chunkText_windows (text : JsString) (maxWords : Z) :
  text <> [] -> (0 < maxWords)%Z ->
  exists wins : list (list JsString),
    chunkText text maxWords = ok (map (join SPACE) wins)
    /\ concat wins = split text
    /\ fullButLast (Z.to_nat maxWords) wins
    /\ Forall wordSequence wins.
Proof.
  intros Htext Hpos. unfold chunkText.
  destruct text as [|c text']; [congruence|]. cbn [isEmpty].
  destruct maxWords as [|step|step]; try lia.
  destruct (chunkLoop_windows (split (c :: text')) step 0 [])
    as (wins & Hloop & Hcat & Hfull & _).
  exists wins. rewrite Hloop. simpl skipn in Hcat. simpl Z.to_nat.
  repeat split; try assumption.
  pose proof (split_wordSequence (c :: text')) as (_ & Hns & Hin).
  apply windows_wordSequence; rewrite ?Hcat; try assumption.
  apply (fullButLast_not_nil (Pos.to_nat step)); [lia | assumption].
Qed.

(** C2.  For a non-empty text and a positive [maxWords], [chunkText]
    returns chunks that partition the word sequence [text.split(/\s+/)]:
    re-splitting the chunks, one by one or after joining them with single
    spaces, gives the word sequence back, in order and without overlap or
    gap; every chunk but the last has exactly [maxWords] words, and every
    chunk has between one and [maxWords] words. *)
Theorem chunkText_partitions_words (text : JsString) (maxWords : Z) :
  text <> [] -> (0 < maxWords)%Z ->
  exists chunks : list JsString,
    chunkText text maxWords = ok chunks
    /\ concat (map split chunks) = split text
    /\ split (join SPACE chunks) = split text
    /\ (forall i, (S i < length chunks)%nat ->
          Z.of_nat (length (split (nth i chunks []))) = maxWords)
    /\ (forall c, In c chunks ->
          (1 <= Z.of_nat (length (split c)) <= maxWords)%Z).
Proof.
  intros Htext Hpos.
  destruct (chunkText_windows text maxWords Htext Hpos)
    as (wins & Hrun & Hcat & Hfull & Hseq).
  exists (map (join SPACE) wins). split; [exact Hrun|].
  pose proof (map_split_join wins Hseq) as Hback.
  pose proof (fullButLast_bounds _ _ Hfull) as [Hfullw Hbound].
  split; [now rewrite Hback, Hcat|]. split.
  - rewrite join_windows, Hcat.
    + apply split_join, split_wordSequence.
    + apply (fullButLast_not_nil (Z.to_nat maxWords)); [lia | assumption].
  - split.
    + intros i Hi. rewrite length_map in Hi.
      assert (Hnth : split (nth i (map (join SPACE) wins) []) = nth i wins []).
      { rewrite <- (map_nth split), Hback. apply nth_indep. lia. }
      rewrite Hnth, (Hfullw i Hi). lia.
    + intros c Hc. apply in_map_iff in Hc as (w & <- & Hw).
      rewrite Forall_forall in Hseq. rewrite (split_join _ (Hseq w Hw)).
      specialize (Hbound w Hw). lia.
Qed.

Lemma chunkText_partitions_words_witness :
  exists chunks : list JsString,
    chunkText (js " a b") 2 = ok chunks
    /\ concat (map split chunks) = split (js " a b")
    /\ split (join SPACE chunks) = split (js " a b")
    /\ (forall i, (S i < length chunks)%nat ->
          Z.of_nat (length (split (nth i chunks []))) = 2%Z)
    /\ (forall c, In c chunks ->
          (1 <= Z.of_nat (length (split c)) <= 2)%Z).
Proof.
  apply (chunkText_partitions_words (js " a b") 2); [discriminate | reflexivity].
Defined.

Lemma splitFrom_true_allSpace (s : JsString) :
  allSpace s -> splitFrom true s = [[]].
Proof.
  unfold allSpace. induction s as [|c s IH]; simpl; [reflexivity|].
  intros H. apply andb_prop in H as [Hc Hs]. rewrite Hc. auto.
Qed.

(** A non-empty run of white space splits into two empty pieces. *)
Lemma split_allSpace (s : JsString) :
  s <> [] -> allSpace s -> split s = [[]; []].
Proof.
  destruct s as [|c s]; [congruence|]. intros _ H. unfold split.
  unfold allSpace in H. simpl in H. apply andb_prop in H as [Hc Hs].
  simpl. rewrite Hc. now rewrite splitFrom_true_allSpace.
Qed.

Lemma chunkLoop_two_empty (step : positive) :
  chunkLoop [[]; []] step 0 []
  = if (step =? 1)%positive
    then [join SPACE [[]]; join SPACE [[]]]
    else [join SPACE [[]; []]].
Proof.
  destruct (Pos.eqb_spec step 1) as [->|Hp]; [reflexivity|].
  assert (exists k, Pos.to_nat step = S (S k)) as [k Hk]
    by (exists (Pos.to_nat step - 2)%nat; lia).
  simp chunkLoop. simpl. rewrite Hk. simp chunkLoop. simpl.
  now rewrite firstn_nil.
Qed.

(** C9.  A non-empty text made of white space only passes the emptiness
    test of [chunkText]: for a positive [maxWords] the call returns, the
    word sequence is the two empty pieces around the single separator, and
    the chunk list is not empty: two chunks, each the join of one empty
    piece, when [maxWords] is 1, and otherwise one chunk, the join of the
    two empty pieces. *)
Theorem chunkText_whitespace_only (text : JsString) (maxWords : Z) :
  text <> [] -> allSpace text -> (0 < maxWords)%Z ->
  exists chunks : list JsString,
    chunkText text maxWords = ok chunks
    /\ chunks <> []
    /\ split text = [[]; []]
    /\ chunks = if (maxWords =? 1)%Z
                then [join SPACE [[]]; join SPACE [[]]]
                else [join SPACE [[]; []]].
Proof.
  intros Htext Hws Hpos. unfold chunkText.
  rewrite (split_allSpace text Htext Hws).
  destruct text as [|c text']; [congruence|]. cbn [isEmpty].
  destruct maxWords as [|step|step]; try lia.
  rewrite chunkLoop_two_empty. change (Z.pos step =? 1)%Z with (step =? 1)%positive.
  eexists. split; [reflexivity|]. split; [|split; reflexivity].
  destruct (step =? 1)%positive; discriminate.
Qed.

Lemma chunkText_whitespace_only_witness :
  exists chunks : list JsString,
    chunkText (js "  ") 500 = ok chunks
    /\ chunks <> []
    /\ split (js "  ") = [[]; []]
    /\ chunks = if (500 =? 1)%Z
                then [join SPACE [[]]; join SPACE [[]]]
                else [join SPACE [[]; []]].
Proof.
  apply (chunkText_whitespace_only (js "  ") 500);
    [discriminate | reflexivity | reflexivity].
Defined.

(* ================================================================== *)
(** ** Properties of cosineSimilarity *)
(* ================================================================== *)

Section VectorMath.

Local Open Scope R_scope.

Lemma fold_dot_acc (l : list (R * R)) (acc : R) :
  fold_left (fun sum p => sum + fst p * snd p) l acc
  = acc + fold_left (fun sum p => sum + fst p * snd p) l 0.
Proof.
  revert acc; induction l as [|p l IH]; intros acc; simpl; [lra|].
  rewrite (IH (acc + _)), (IH (0 + _)). lra.
Qed.

Lemma fold_squares_acc (l : list R) (acc : R) :
  fold_left (fun sum val => sum + val * val) l acc
  = acc + fold_left (fun sum val => sum + val * val) l 0.
Proof.
  revert acc; induction l as [|x l IH]; intros acc; simpl; [lra|].
  rewrite (IH (acc + _)), (IH (0 + _)). lra.
Qed.

Lemma dotProduct_cons (x y : R) (a b : list R) :
  dotProduct (x :: a) (y :: b) = x * y + dotProduct a b.
Proof. unfold dotProduct; simpl. rewrite fold_dot_acc. lra. Qed.

Lemma sumSquares_cons (x : R) (a : list R) :
  sumSquares (x :: a) = x * x + sumSquares a.
Proof. unfold sumSquares; simpl. rewrite fold_squares_acc. lra. Qed.

Lemma dotProduct_comm (a b : list R) : dotProduct a b = dotProduct b a.
Proof.
  revert b; induction a as [|x a IH]; intros [|y b]; try reflexivity.
  rewrite !dotProduct_cons, IH. lra.
Qed.

Lemma dotProduct_self (a : list R) : dotProduct a a = sumSquares a.
Proof.
  induction a as [|x a IH]; [reflexivity|].
  now rewrite dotProduct_cons, sumSquares_cons, IH.
Qed.

Lemma sumSquares_nonneg (a : list R) : 0 <= sumSquares a.
Proof.
  induction a as [|x a IH]; [unfold sumSquares; simpl; lra|].
  rewrite sumSquares_cons. nra.
Qed.

Lemma sumSquares_nonZero (a : list R) : nonZero a -> 0 < sumSquares a.
Proof.
  induction 1 as [x a Hx | x a _ IH]; rewrite sumSquares_cons.
  - pose proof (sumSquares_nonneg a). nra.
  - nra.
Qed.

Lemma magnitude_nonZero (a : list R) : nonZero a -> magnitude a <> 0.
Proof.
  intros H. apply Rgt_not_eq, sqrt_lt_R0, sumSquares_nonZero, H.
Qed.

(** With equal non-zero lengths and non-zero magnitudes no test fails. *)
Lemma cosineSimilarity_ok (a b : list R) :
  a <> [] -> length a = length b ->
  magnitude a <> 0 -> magnitude b <> 0 ->
  cosineSimilarity a b = ok (similarity a b).
Proof.
  intros Ha Hlen Hma Hmb. unfold cosineSimilarity.
  destruct a as [|x a]; [congruence|]. destruct b as [|y b]; [discriminate|].
  cbn [length Nat.eqb orb]. simpl in Hlen. injection Hlen as Hlen.
  rewrite Hlen, Nat.eqb_refl. cbn [negb].
  destruct (Req_dec_T (magnitude (x :: a)) 0); [contradiction|].
  destruct (Req_dec_T (magnitude (y :: b)) 0); [contradiction|].
  reflexivity.
Qed.

Lemma similarity_self (v : list R) : nonZero v -> similarity v v = 1.
Proof.
  intros H. unfold similarity, magnitude. rewrite dotProduct_self.
  rewrite sqrt_sqrt by apply sumSquares_nonneg.
  pose proof (sumSquares_nonZero v H). field. lra.
Qed.

Lemma cosineSimilarity_self (v : list R) :
  nonZero v -> cosineSimilarity v v = ok 1.
Proof.
  intros H. rewrite cosineSimilarity_ok.
  - now rewrite similarity_self.
  - destruct H; discriminate.
  - reflexivity.
  - now apply magnitude_nonZero.
  - now apply magnitude_nonZero.
Qed.

Lemma similarity_comm (a b : list R) : similarity a b = similarity b a.
Proof.
  unfold similarity. now rewrite dotProduct_comm, (Rmult_comm (magnitude a)).
Qed.

(** The two calls agree on every pair of vectors, thrown errors included. *)
Lemma cosineSimilarity_comm (a b : list R) :
  cosineSimilarity a b = cosineSimilarity b a.
Proof.
  unfold cosineSimilarity.
  rewrite (Nat.eqb_sym (length b) (length a)).
  destruct (length a =? 0)%nat, (length b =? 0)%nat; try reflexivity.
  cbn [orb]. destruct (negb (length a =? length b)%nat); [reflexivity|].
  destruct (Req_dec_T (magnitude a) 0), (Req_dec_T (magnitude b) 0);
    try reflexivity.
  now rewrite dotProduct_comm, (Rmult_comm (magnitude a)).
Qed.

(** C7.  Under exact real arithmetic, the similarity of a non-zero vector
    with itself is 1, and for two non-empty vectors of equal length and
    non-zero magnitudes both orders of the arguments return the same
    value. *)
Theorem cosineSimilarity_self_and_symmetric :
  (forall v : list R, nonZero v -> cosineSimilarity v v = ok 1)
  /\ (forall a b : list R,
        a <> [] -> length a = length b ->
        magnitude a <> 0 -> magnitude b <> 0 ->
        exists s : R,
          cosineSimilarity a b = ok s /\ cosineSimilarity b a = ok s).
Proof.
  split; [exact cosineSimilarity_self|].
  intros a b Ha Hlen Hma Hmb. exists (similarity a b).
  rewrite <- (cosineSimilarity_comm a b).
  split; now apply cosineSimilarity_ok.
Qed.

Lemma nonZero_1_0 : nonZero [1; 0].
Proof. constructor. lra. Qed.

Lemma nonZero_0_1 : nonZero [0; 1].
Proof. right; constructor. lra. Qed.

Lemma cosineSimilarity_self_and_symmetric_witness :
  cosineSimilarity [1; 0] [1; 0] = ok 1
  /\ exists s : R,
       cosineSimilarity [1; 0] [0; 1] = ok s
       /\ cosineSimilarity [0; 1] [1; 0] = ok s.
Proof.
  split.
  - exact (proj1 cosineSimilarity_self_and_symmetric [1; 0] nonZero_1_0).
  - apply (proj2 cosineSimilarity_self_and_symmetric [1; 0] [0; 1]).
    + discriminate.
    + reflexivity.
    + exact (magnitude_nonZero [1; 0] nonZero_1_0).
    + exact (magnitude_nonZero [0; 1] nonZero_0_1).
Defined.

End VectorMath.

(* ================================================================== *)
(** ** Properties of findRelevantChunks with real scores *)
(* ================================================================== *)

Section Ranking.

Local Open Scope R_scope.

Lemma insertDesc_perm (x : Scored) (l : list Scored) :
  Permutation (insertDesc x l) (x :: l).
Proof.
  induction l as [|y l IH]; simpl; [apply Permutation_refl|].
  destruct (Rlt_dec (score x) (score y)); [|apply Permutation_refl].
  apply perm_trans with (y :: x :: l); [now constructor | apply perm_swap].
Qed.

Lemma sortDesc_perm (l : list Scored) : Permutation (sortDesc l) l.
Proof.
  induction l as [|x l IH]; simpl; [constructor|].
  apply perm_trans with (x :: sortDesc l);
    [apply insertDesc_perm | now constructor].
Qed.

(** Inserting an entry that comes earlier in the document than every entry
    of a ranked list keeps the list ranked: the sort is stable. *)
Lemma insertDesc_sorted (x : Scored) (l : list Scored) :
  StronglySorted ranksBefore l ->
  Forall (fun y => (index x < index y)%nat) l ->
  StronglySorted ranksBefore (insertDesc x l).
Proof.
  induction 1 as [|y l Hl IH Hy]; intros Hidx; simpl.
  - repeat constructor.
  - inversion Hidx as [|? ? Hxy Hxl]; subst.
    destruct (Rlt_dec (score x) (score y)) as [Hlt|Hge].
    + constructor; [apply IH, Hxl|].
      apply (Permutation_Forall (Permutation_sym (insertDesc_perm x l))).
      constructor; [left; exact Hlt | exact Hy].
    + assert (Hx : ranksBefore x y).
      { unfold ranksBefore. destruct (Rlt_dec (score y) (score x)); [now left|].
        right. split; [lra | exact Hxy]. }
      constructor; [now constructor|]. constructor; [exact Hx|].
      rewrite Forall_forall in *. intros z Hz.
      specialize (Hy z Hz). specialize (Hxl z Hz).
      unfold ranksBefore in *.
      destruct (Rlt_dec (score z) (score x)); [now left|].
      right. split; [|exact Hxl]. destruct Hx as [?|[? _]], Hy as [?|[? _]]; lra.
Qed.

Lemma scoredFrom_index (query : list R) (i : nat) (dv : list (list R)) :
  Forall (fun y => (i <= index y)%nat) (scoredFrom query i dv).
Proof.
  revert i; induction dv as [|e dv IH]; intros i; simpl; constructor.
  - simpl; lia.
  - eapply Forall_impl; [|apply (IH (S i))]. simpl; intros; lia.
Qed.

Lemma scoredFrom_length (query : list R) (i : nat) (dv : list (list R)) :
  length (scoredFrom query i dv) = length dv.
Proof. revert i; induction dv; intros i; simpl; auto. Qed.

Lemma sortDesc_scoredFrom_sorted (query : list R) (i : nat)
  (dv : list (list R)) :
  StronglySorted ranksBefore (sortDesc (scoredFrom query i dv)).
Proof.
  revert i; induction dv as [|e dv IH]; intros i; simpl; [constructor|].
  apply insertDesc_sorted; [apply IH|].
  apply (Permutation_Forall (Permutation_sym (sortDesc_perm _))).
  eapply Forall_impl; [|apply (scoredFrom_index query (S i) dv)].
  simpl; intros; lia.
Qed.

Lemma nonZero_length (v : list R) : nonZero v -> length v <> 0%nat.
Proof. destruct 1; discriminate. Qed.

(** On valid vectors no call of [cosineSimilarity] throws. *)
Lemma scoreFrom_ok (query : list R) (i : nat) (dv : list (list R)) :
  nonZero query ->
  Forall (fun e => length e = length query /\ nonZero e) dv ->
  scoreFrom query i dv = ok (scoredFrom query i dv).
Proof.
  intros Hq Hdv. revert i; induction Hdv as [|e dv [Hlen He] _ IH]; intros i.
  - reflexivity.
  - cbn [scoreFrom scoredFrom]. rewrite cosineSimilarity_ok.
    + cbn [bindRes ok]. now rewrite IH.
    + destruct Hq; discriminate.
    + now symmetry.
    + now apply magnitude_nonZero.
    + now apply magnitude_nonZero.
Qed.

Lemma slice_0 {A : Type} (l : list A) (k : nat) : slice l 0 k = firstn k l.
Proof. unfold slice. now rewrite Nat.sub_0_r. Qed.

Lemma clampTopK_range (topK : Z) (n : nat) :
  (1 <= n)%nat -> (1 <= clampTopK topK n <= Z.of_nat n)%Z.
Proof.
  intros Hn. unfold clampTopK.
  destruct (topK <=? 0)%Z eqn:H1; [cbn [orb]; lia|].
  destruct (topK >? Z.of_nat n)%Z eqn:H2; cbn [orb]; lia.
Qed.

(** On a valid input the call returns the chunks of the first entries of
    the stable descending sort. *)
Lemma findRelevantChunks_ok (query : list R) (dv : list (list R))
  (dc : list JsString) (topK : Z) :
  validRanking query dv dc ->
  findRelevantChunks query dv dc topK
  = ok (map (fun s => nth (index s) dc [])
          (firstn (Z.to_nat (clampTopK topK (length dc)))
             (sortDesc (scoredFrom query 0 dv)))).
Proof.
  intros (Hq & Hne & Hlen & Hdv). unfold findRelevantChunks.
  pose proof (nonZero_length query Hq) as Hq0.
  apply Nat.eqb_neq in Hq0. rewrite Hq0.
  assert (Hdv0 : length dv <> 0%nat) by (destruct dv; [congruence | discriminate]).
  assert (Hdc0 : length dc <> 0%nat) by lia.
  apply Nat.eqb_neq in Hdv0, Hdc0. rewrite Hdv0, Hdc0, Hlen, Nat.eqb_refl.
  cbn [negb]. rewrite (scoreFrom_ok query 0 dv Hq Hdv). cbn [bindRes ok].
  now rewrite slice_0.
Qed.

End Ranking.

Section RankingProperties.

Local Open Scope R_scope.

(** For every input, valid or not, the call behaves as the call with the
    value of [topK] after the range test: a [topK] out of range is never a
    reason to fail. *)
Lemma findRelevantChunks_clamp (query : list R) (dv : list (list R))
  (dc : list JsString) (topK : Z) :
  findRelevantChunks query dv dc topK
  = findRelevantChunks query dv dc (clampTopK topK (length dc)).
Proof.
  unfold findRelevantChunks.
  destruct (length query =? 0)%nat; [reflexivity|].
  destruct (length dv =? 0)%nat; [reflexivity|].
  destruct (length dc =? 0)%nat eqn:Hdc; [reflexivity|].
  destruct (negb (length dv =? length dc)%nat); [reflexivity|].
  apply Nat.eqb_neq in Hdc.
  assert (Hidem : clampTopK (clampTopK topK (length dc)) (length dc)
                  = clampTopK topK (length dc)).
  { assert (Hn : (1 <= length dc)%nat) by lia.
    pose proof (clampTopK_range topK _ Hn) as Hk.
    unfold clampTopK at 1.
    destruct (clampTopK topK (length dc) <=? 0)%Z eqn:H1; [lia|].
    destruct (clampTopK topK (length dc) >? Z.of_nat (length dc))%Z eqn:H2;
      [lia | reflexivity]. }
  now rewrite Hidem.
Qed.

End RankingProperties.

(* ================================================================== *)
(** ** Properties of getEmbeddings *)
(* ================================================================== *)

Section EmbeddingProperties.

Variable W : Type.
Variable embeddings_create : list JsString -> W -> W * Res (list (list R)).

Lemma call_inv {A : Type} (ev : Event) (f : W -> W * Res A)
  (s s1 : St W) (r : Res A) :
  call ev f s = (s1, r) ->
  snd (f (world s)) = r /\ trace s1 = trace s ++ [ev].
Proof.
  unfold call. destruct (f (world s)) as [w' r']. intros H.
  injection H as <- <-. split; reflexivity.
Qed.

(** With a service that answers every batch [b] with [respond b], the loop
    calls it once per batch of [batchSize] texts and appends the answers, in
    the order of the batches. *)
Lemma embedLoop_batches (respond : list JsString -> list (list R))
  (texts : list JsString) (i : nat) (embeddings : list (list R)) (s : St W) :
  (forall batch w, snd (embeddings_create batch w) = ok (respond batch)) ->
  exists batches : list (list JsString),
    concat batches = skipn i texts
    /\ fullButLast batchSize batches
    /\ (batches = [] <-> (length texts <= i)%nat)
    /\ snd (embedLoop embeddings_create texts i embeddings s)
       = ok (embeddings ++ concat (map respond batches))
    /\ trace (fst (embedLoop embeddings_create texts i embeddings s))
       = trace s ++ batchCalls batches.
Proof.
  intros Hservice.
  funelim (embedLoop embeddings_create texts i embeddings s).
  - exists []. cbn [fst snd batchCalls concat fullButLast map].
    rewrite skipn_all2 by lia. rewrite !app_nil_r.
    repeat split; try reflexivity; lia.
  - apply call_inv in Heq as [Hres _]. rewrite Hservice in Hres. discriminate.
  - apply call_inv in Heq as [Hres Htrace]. rewrite Hservice in Hres.
    injection Hres as <-.
    destruct (H respond Hservice) as (rest & Hcat & Hfull & Hnil & Hval & Htr).
    exists (slice texts i (i + batchSize) :: rest).
    pose proof (slice_length texts i batchSize) as Hlen.
    split; [simpl; rewrite Hcat; apply slice_app_skipn|].
    split.
    { cbn [fullButLast]. destruct rest as [|b' rest'].
      - unfold batchSize in *. lia.
      - split; [|exact Hfull].
        assert (~ (length texts <= i + batchSize)%nat)
          by (intros Hle; apply Hnil in Hle; discriminate).
        unfold batchSize in *. lia. }
    split; [split; [discriminate | lia]|].
    split; [rewrite Hval, <- app_assoc; reflexivity|].
    rewrite Htr. cbn [batchCalls].
    destruct (lt_dec (i + batchSize) (length texts)) as [Hmore|Hlast].
    + destruct rest as [|b' rest'];
        [exfalso; assert (length texts <= i + batchSize)%nat
           by (apply Hnil; reflexivity); lia|].
      cbn [pause fst trace]. rewrite Htrace, <- !app_assoc. reflexivity.
    + assert (Hrest : rest = []) by (apply Hnil; lia). subst rest.
      rewrite Htrace. cbn [batchCalls]. now rewrite app_nil_r.
Qed.

(** C6.  For a non-empty [texts] and a service that answers every batch
    [b] with [respond b], [getEmbeddings] cuts [texts] into consecutive
    batches of at most [batchSize = 10] texts (every batch but the last has
    exactly 10), calls the service once per batch, in order, with a pause
    between two calls, and resolves with the answers concatenated in the
    order of the batches; when the service embeds text by text, that is the
    vector of every text, in the order of [texts]. *)
Theorem getEmbeddings_batches_aligned
  (respond : list JsString -> list (list R))
  (texts : list JsString) (s : St W) :
  texts <> [] ->
  (forall batch w, snd (embeddings_create batch w) = ok (respond batch)) ->
  exists batches : list (list JsString),
    concat batches = texts
    /\ fullButLast batchSize batches
    /\ trace (fst (getEmbeddings embeddings_create texts s))
       = trace s ++ batchCalls batches
    /\ snd (getEmbeddings embeddings_create texts s)
       = ok (concat (map respond batches))
    /\ (forall embedOne : JsString -> list R,
          (forall batch, respond batch = map embedOne batch) ->
          snd (getEmbeddings embeddings_create texts s)
          = ok (map embedOne texts)).
Proof.
  intros Htexts Hservice.
  destruct (embedLoop_batches respond texts 0 [] s Hservice)
    as (batches & Hcat & Hfull & _ & Hval & Htr).
  exists batches. cbn [skipn app] in Hcat, Hval.
  split; [exact Hcat|]. split; [exact Hfull|].
  assert (Hrun : getEmbeddings embeddings_create texts s
                 = embedLoop embeddings_create texts 0 [] s).
  { unfold getEmbeddings, tryCatch.
    destruct texts as [|t texts']; [congruence|]. cbn [length Nat.eqb].
    destruct (embedLoop embeddings_create (t :: texts') 0 [] s)
      as [s' [e|vs]]; cbn [fst snd] in *; [discriminate | reflexivity]. }
  rewrite Hrun. split; [exact Htr|]. split; [exact Hval|].
  intros embedOne Hone. rewrite Hval, <- Hcat, concat_map.
  do 2 f_equal. apply map_ext. exact Hone.
Qed.

(** C4, amended.  On an empty [texts] [getEmbeddings] fails without a
    call of the service: the first test throws inside the [try] block, so
    the exception that leaves [getEmbeddings] is the one made by the
    [catch] clause.  Every rejection of [getEmbeddings], a failure of the
    service included, is that same exception. *)
Theorem getEmbeddings_empty_uniform_error (s : St W) :
  getEmbeddings embeddings_create [] s
  = (s, throw (Error (js "Failed to generate embeddings")))
  /\ (forall (texts : list JsString) (e : Exn),
        snd (getEmbeddings embeddings_create texts s) = throw e ->
        e = Error (js "Failed to generate embeddings")).
Proof.
  split; [reflexivity|]. intros texts e. unfold getEmbeddings, tryCatch.
  match goal with
  | |- context [match ?m s with _ => _ end] => destruct (m s) as [s' [e'|vs]]
  end; cbn; intros H; [now injection H as <- | discriminate].
Qed.

End EmbeddingProperties.

(** C4, as stated, fails: the exception of [getEmbeddings] on an empty
    [texts] is the exception it throws when the service rejects a call, so
    a caller cannot tell the two failures apart. *)
Lemma getEmbeddings_empty_same_as_service_failure :
  snd (getEmbeddings Sample.embeddings_create [] Sample.start)
  = throw (Error (js "Failed to generate embeddings"))
  /\ snd (getEmbeddings Sample.embeddingsDown [js "a"] Sample.start)
     = throw (Error (js "Failed to generate embeddings"))
  /\ snd (getEmbeddings Sample.embeddings_create [] Sample.start)
     = snd (getEmbeddings Sample.embeddingsDown [js "a"] Sample.start).
Proof. split; [|split]; reflexivity. Qed.

Lemma getEmbeddings_batches_aligned_witness :
  exists batches : list (list JsString),
    concat batches = [js "a"; js "b"]
    /\ fullButLast batchSize batches
    /\ trace (fst (getEmbeddings Sample.embeddings_create [js "a"; js "b"]
                     Sample.start))
       = trace Sample.start ++ batchCalls batches
    /\ snd (getEmbeddings Sample.embeddings_create [js "a"; js "b"] Sample.start)
       = ok (concat (map (map Sample.embedOne) batches))
    /\ (forall embedOne : JsString -> list R,
          (forall batch, map Sample.embedOne batch = map embedOne batch) ->
          snd (getEmbeddings Sample.embeddings_create [js "a"; js "b"]
                 Sample.start)
          = ok (map embedOne [js "a"; js "b"])).
Proof.
  apply (getEmbeddings_batches_aligned unit Sample.embeddings_create
           (map Sample.embedOne) [js "a"; js "b"] Sample.start).
  - discriminate.
  - reflexivity.
Defined.

(* ================================================================== *)
(** ** Properties of POST *)
(* ================================================================== *)

Section HandlerProperties.

Variable W : Type.
Variable fetch : JsValue -> W -> W * Res HttpResponse.
Variable pdf : list Byte.byte -> W -> W * Res JsString.
Variable embeddings_create : list JsString -> W -> W * Res (list (list R)).
Variable askOpenRouter : JsString -> list JsString -> W -> W * Res JsString.
Variable Number_toString : PrimFloat.float -> JsString.

(** The validation answers 400 from the state it started in whenever one
    of its four tests holds. *)
Lemma POST_rejects (parsed : JsValue) (documents questions : option JsValue)
  (s : St W) :
  destructure parsed = ok (documents, questions) ->
  negb (truthy documents) || negb (truthy questions)
  || negb (isArray questions) || (length (elements questions) =? 0)%nat = true ->
  POST fetch pdf embeddings_create askOpenRouter Number_toString (ok parsed) s
  = (s, ok invalidRequest).
Proof.
  intros Hd Htest. cbv beta iota delta [POST tryCatch bind liftRes ok].
  rewrite Hd. cbv beta iota delta [ok]. now rewrite Htest.
Qed.

(** C8.  A request object without a [documents] property, without a
    [questions] property, with a [questions] that is not an array, or with
    an empty [questions] array is answered with status 400 and the message
    of the validation; the handler ends in the state it started in, so no
    collaborator has been called: nothing was fetched, embedded or asked. *)
Theorem POST_invalid_request (props : list (JsString * JsValue)) (s : St W) :
  getOwn (js "documents") props = None
  \/ getOwn (js "questions") props = None
  \/ isArray (getOwn (js "questions") props) = false
  \/ getOwn (js "questions") props = Some (JArray []) ->
  POST fetch pdf embeddings_create askOpenRouter Number_toString
    (ok (JObject props)) s
  = (s, ok (json (ErrorBody (js "Invalid request. Please provide documents URL and questions array.")) 400)).
Proof.
  intros H. apply (POST_rejects (JObject props) _ _ s eq_refl).
  destruct H as [-> | [-> | [-> | ->]]]; cbn;
    rewrite ?orb_true_r; reflexivity.
Qed.

(** A question that is a string always adds one entry: its turn of the
    loop cannot throw. *)
Lemma processQuestion_string (chunks : list JsString)
  (chunkEmbeddings : list (list R)) (results : list JsString)
  (q : JsString) (s : St W) :
  exists (s' : St W) (entry : JsString),
    processQuestion embeddings_create askOpenRouter Number_toString
      chunks chunkEmbeddings results (JString q) s
    = (s', ok (results ++ [entry]))
    /\ entryFor askOpenRouter Number_toString (JString q) entry.
Proof.
  assert (Hfail : forall entry : JsString,
            entry = js "Error: Failed to process the question: " ++ q ->
            entryFor askOpenRouter Number_toString (JString q) entry).
  { intros entry ->. right; left. exists q. split; reflexivity. }
  cbv beta iota zeta delta [processQuestion tryCatch bind liftRes callTrim ok ret].
  change (ToString Number_toString (JString q)) with (@inr Exn JsString q).
  destruct (isEmpty (trim q)) eqn:Htrim.
  - do 2 eexists. split; [reflexivity|]. left. split; [reflexivity|].
    exists q. split; [reflexivity | exact Htrim].
  - match goal with
    | |- context [@getEmbeddings W embeddings_create ?l s] =>
        destruct (@getEmbeddings W embeddings_create l s) as [s1 [e|vectors]]
    end.
    { cbn. do 2 eexists. split; [reflexivity | now apply Hfail]. }
    destruct (match vectors with
              | [] => throw (Error (js "Invalid query embedding"))
              | questionEmbedding :: _ =>
                  findRelevantChunks questionEmbedding chunkEmbeddings chunks 3
              end) as [e|relevantChunks].
    { cbn. do 2 eexists. split; [reflexivity | now apply Hfail]. }
    unfold call.
    destruct (askOpenRouter q relevantChunks (world s1)) as [w' [e|answer]] eqn:Hask.
    { cbn. do 2 eexists. split; [reflexivity | now apply Hfail]. }
    do 2 eexists. split; [reflexivity|]. right; right.
    exists q, relevantChunks, (world s1), w'. repeat split; assumption.
Qed.

(** On a question that is not a string [trim] cannot be called, and the
    turn ends in the [catch] clause, which converts the question to a
    string: it adds the placeholder, or throws what the conversion throws. *)
Lemma processQuestion_not_string (chunks : list JsString)
  (chunkEmbeddings : list (list R)) (results : list JsString)
  (question : JsValue) (s : St W) :
  (forall q, question <> JString q) ->
  processQuestion embeddings_create askOpenRouter Number_toString
    chunks chunkEmbeddings results question s
  = (s, bindRes (ToString Number_toString question) (fun shown =>
          ok (results ++ [js "Error: Failed to process the question: " ++ shown]))).
Proof.
  intros Hq.
  cbv beta iota zeta delta [processQuestion tryCatch bind liftRes ok ret bindRes].
  destruct question as [| b | n | q | elems | props];
    try (exfalso; exact (Hq q eq_refl));
    cbv beta iota delta [callTrim throw];
    match goal with
    | |- context [ToString ?f ?v] => destruct (ToString f v) as [e|shown]
    end; reflexivity.
Qed.

(** One turn of the loop either adds exactly one entry, which is a result
    for the question, or throws because the question cannot be converted to
    a string. *)
Lemma processQuestion_outcome (chunks : list JsString)
  (chunkEmbeddings : list (list R)) (results : list JsString)
  (question : JsValue) (s : St W) :
  (exists (s' : St W) (entry : JsString),
      processQuestion embeddings_create askOpenRouter Number_toString
        chunks chunkEmbeddings results question s
      = (s', ok (results ++ [entry]))
      /\ entryFor askOpenRouter Number_toString question entry)
  \/ (exists e : Exn,
        processQuestion embeddings_create askOpenRouter Number_toString
          chunks chunkEmbeddings results question s
        = (s, throw e)
        /\ ToString Number_toString question = throw e).
Proof.
  destruct question as [| b | n | q | elems | props];
    try (left; apply processQuestion_string);
    (rewrite processQuestion_not_string by discriminate;
     match goal with
     | |- context [ToString ?f ?v] => destruct (ToString f v) as [e|shown] eqn:Hshow
     end;
     [ right; exists e; split; reflexivity
     | left; do 2 eexists; split; [reflexivity|];
       right; left; exists shown; split; [exact Hshow | reflexivity] ]).
Qed.

(** Whenever the loop ends normally it has added one entry per question,
    in the order of the questions. *)
Lemma questionLoop_entries (chunks : list JsString)
  (chunkEmbeddings : list (list R)) (questions : list JsValue) :
  forall (results : list JsString) (s s' : St W) (r : list JsString),
    questionLoop embeddings_create askOpenRouter Number_toString
      chunks chunkEmbeddings results questions s = (s', ok r) ->
    exists entries : list JsString,
      r = results ++ entries
      /\ Forall2 (entryFor askOpenRouter Number_toString) questions entries.
Proof.
  induction questions as [|question rest IH]; intros results s s' r Hrun.
  - injection Hrun as _ <-. exists []. split; [now rewrite app_nil_r | constructor].
  - cbn [questionLoop] in Hrun. unfold bind in Hrun.
    destruct (processQuestion_outcome chunks chunkEmbeddings results question s)
      as [(s1 & entry & Hturn & Hentry) | (e & Hturn & _)];
      rewrite Hturn in Hrun; [|discriminate].
    destruct (IH _ _ _ _ Hrun) as (entries & -> & Hall).
    exists (entry :: entries). split; [now rewrite <- app_assoc | now constructor].
Qed.

(** When every question can be converted to a string the loop ends
    normally. *)
Lemma questionLoop_total (chunks : list JsString)
  (chunkEmbeddings : list (list R)) (questions : list JsValue) :
  Forall (fun q => exists shown, ToString Number_toString q = ok shown)
    questions ->
  forall (results : list JsString) (s : St W),
  exists (s' : St W) (entries : list JsString),
    questionLoop embeddings_create askOpenRouter Number_toString
      chunks chunkEmbeddings results questions s
    = (s', ok (results ++ entries))
    /\ Forall2 (entryFor askOpenRouter Number_toString) questions entries.
Proof.
  induction 1 as [|question rest [shown Hshow] _ IH]; intros results s.
  - exists s, []. split; [cbn; now rewrite app_nil_r | constructor].
  - cbn [questionLoop]. unfold bind.
    destruct (processQuestion_outcome chunks chunkEmbeddings results question s)
      as [(s1 & entry & Hturn & Hentry) | (e & _ & Hthrow)];
      [|rewrite Hshow in Hthrow; discriminate].
    rewrite Hturn. cbv beta iota delta [ok throw].
    destruct (IH (results ++ [entry]) s1) as (s' & entries & Hrun & Hall).
    exists s', (entry :: entries). rewrite Hrun, <- app_assoc.
    split; [reflexivity | now constructor].
Qed.

(** The first question that cannot be converted to a string ends the loop:
    what its conversion throws leaves the loop, and the questions behind it
    are not processed. *)
Lemma questionLoop_aborts (chunks : list JsString)
  (chunkEmbeddings : list (list R)) (before after : list JsValue)
  (bad : JsValue) (e : Exn) :
  Forall (fun q => exists shown, ToString Number_toString q = ok shown)
    before ->
  ToString Number_toString bad = throw e ->
  forall (results : list JsString) (s : St W),
  exists s' : St W,
    questionLoop embeddings_create askOpenRouter Number_toString
      chunks chunkEmbeddings results (before ++ bad :: after) s
    = (s', throw e).
Proof.
  intros Hbefore Hbad.
  induction Hbefore as [|question rest [shown Hshow] _ IH]; intros results s.
  - cbn [app questionLoop]. unfold bind.
    destruct (processQuestion_outcome chunks chunkEmbeddings results bad s)
      as [(s1 & entry & Hturn & Hentry) | (e' & Hturn & Hthrow)].
    + exfalso. destruct bad as [| b | n | q | elems | props];
        try (rewrite processQuestion_not_string, Hbad in Hturn by discriminate;
             discriminate Hturn).
    + rewrite Hturn. cbv beta iota delta [ok throw]. exists s. rewrite Hbad in Hthrow.
      now injection Hthrow as <-.
  - cbn [app questionLoop]. unfold bind.
    destruct (processQuestion_outcome chunks chunkEmbeddings results question s)
      as [(s1 & entry & Hturn & Hentry) | (e' & _ & Hthrow)];
      [|rewrite Hshow in Hthrow; discriminate].
    rewrite Hturn. cbv beta iota delta [ok throw]. apply IH.
Qed.

(** X1.  Whenever the handler answers with an answers list, the request held
    a non-empty array of questions, the status is 200, and the list has one
    entry per question, each a result for the question at its position. *)
Theorem POST_answers_entries (request : Res JsValue) (s s' : St W)
  (answers : list JsString) (st : Z) :
  POST fetch pdf embeddings_create askOpenRouter Number_toString request s
  = (s', ok {| body := AnswersBody answers; status := st |}) ->
  exists (parsed : JsValue) (documents : option JsValue)
         (questions : list JsValue),
    request = ok parsed
    /\ destructure parsed = ok (documents, Some (JArray questions))
    /\ questions <> []
    /\ st = 200%Z
    /\ length answers = length questions
    /\ Forall2 (entryFor askOpenRouter Number_toString) questions answers.
Proof.
  intros Hrun.
  cbv beta iota zeta
    delta [POST tryCatch bind liftRes ret ok throw throwM json invalidRequest]
    in Hrun.
  destruct request as [e|parsed]; [discriminate|].
  destruct (destructure parsed) as [e|[documents questions]] eqn:Hd;
    [discriminate|].
  destruct (negb (truthy documents) || negb (truthy questions)
            || negb (isArray questions)
            || (length (elements questions) =? 0)%nat) eqn:Hvalid;
    [discriminate|].
  match type of Hrun with
  | context [downloadPdf ?f ?p ?n ?u s] =>
      destruct (downloadPdf f p n u s) as [s1 [e1|fullText]]
  end; [discriminate|].
  cbv beta iota in Hrun.
  destruct (isEmpty (trim fullText)); [discriminate|].
  destruct (chunkText fullText 500) as [e2|chunks]; [discriminate|].
  cbv beta iota in Hrun.
  destruct (getEmbeddings embeddings_create chunks s1)
    as [s3 [e3|chunkEmbeddings]]; [discriminate|].
  cbv beta iota in Hrun.
  destruct (questionLoop embeddings_create askOpenRouter Number_toString chunks
              chunkEmbeddings [] (elements questions) s3)
    as [s4 [e4|results]] eqn:Hloop; [discriminate|].
  injection Hrun as _ <- <-.
  destruct (questionLoop_entries _ _ _ _ _ _ _ Hloop) as (entries & Hres & Hall).
  cbn [app] in Hres. subst entries.
  apply orb_false_elim in Hvalid as [Hvalid Hlen].
  apply orb_false_elim in Hvalid as [_ Harr].
  destruct questions as [[| | | | questions |]|]; try discriminate Harr.
  exists parsed, documents, questions. cbn [elements] in *.
  split; [reflexivity|]. split; [exact Hd|].
  split; [destruct questions; [discriminate Hlen | discriminate]|].
  split; [reflexivity|].
  split; [symmetry; exact (Forall2_length Hall) | exact Hall].
Qed.

(** Once the corpus is embedded, the handler answers with what the loop
    over the questions gives: the answers list with status 200 when the
    loop ends normally, and the response of the outer [catch] clause when
    an exception leaves the loop. *)
Lemma POST_reaches_loop (parsed d : JsValue) (questions : list JsValue)
  (s s1 s2 : St W) (fullText : JsString) (chunks : list JsString)
  (chunkEmbeddings : list (list R)) :
  destructure parsed = ok (Some d, Some (JArray questions)) ->
  truthy (Some d) = true -> questions <> [] ->
  downloadPdf fetch pdf Number_toString d s = (s1, ok fullText) ->
  isEmpty (trim fullText) = false ->
  chunkText fullText 500 = ok chunks ->
  getEmbeddings embeddings_create chunks s1 = (s2, ok chunkEmbeddings) ->
  POST fetch pdf embeddings_create askOpenRouter Number_toString (ok parsed) s
  = (fst (questionLoop embeddings_create askOpenRouter Number_toString
            chunks chunkEmbeddings [] questions s2),
     ok match snd (questionLoop embeddings_create askOpenRouter Number_toString
                     chunks chunkEmbeddings [] questions s2) with
        | inr results => json (AnswersBody results) 200
        | inl err =>
            json (ErrorBody (if isEmpty (message err)
                             then js "Internal server error"
                             else message err)) 500
        end).
Proof.
  intros Hd Hdoc Hq Hdown Htext Hchunk Hembed.
  cbv beta iota zeta delta [POST tryCatch bind liftRes ret ok throw throwM].
  rewrite Hd. cbv beta iota delta [ok]. rewrite Hdoc.
  destruct questions as [|q0 rest]; [congruence|].
  cbn [negb orb truthy isArray elements length Nat.eqb].
  rewrite Hdown. cbv beta iota delta [ok]. rewrite Htext, Hchunk.
  cbv beta iota delta [ok]. rewrite Hembed. cbv beta iota delta [ok].
  destruct (questionLoop embeddings_create askOpenRouter Number_toString chunks
              chunkEmbeddings [] (q0 :: rest) s2) as [s3 [e|results]];
    reflexivity.
Qed.

(** X2.  A request that reaches the loop with questions that can all be
    converted to a string (every string, [null], boolean and number can) is
    answered with status 200 and an answers list that has one entry per
    question, each a result for the question at its position, whatever
    fails while a question is processed. *)
Theorem POST_answers_when_printable (parsed d : JsValue)
  (questions : list JsValue) (s s1 s2 : St W) (fullText : JsString)
  (chunks : list JsString) (chunkEmbeddings : list (list R)) :
  destructure parsed = ok (Some d, Some (JArray questions)) ->
  truthy (Some d) = true -> questions <> [] ->
  downloadPdf fetch pdf Number_toString d s = (s1, ok fullText) ->
  isEmpty (trim fullText) = false ->
  chunkText fullText 500 = ok chunks ->
  getEmbeddings embeddings_create chunks s1 = (s2, ok chunkEmbeddings) ->
  Forall (fun q => exists shown, ToString Number_toString q = ok shown)
    questions ->
  exists (s' : St W) (answers : list JsString),
    POST fetch pdf embeddings_create askOpenRouter Number_toString
      (ok parsed) s
    = (s', ok (json (AnswersBody answers) 200))
    /\ length answers = length questions
    /\ Forall2 (entryFor askOpenRouter Number_toString) questions answers.
Proof.
  intros Hd Hdoc Hq Hdown Htext Hchunk Hembed Hprint.
  rewrite (POST_reaches_loop parsed d questions s s1 s2 fullText chunks
             chunkEmbeddings Hd Hdoc Hq Hdown Htext Hchunk Hembed).
  destruct (questionLoop_total chunks chunkEmbeddings questions Hprint [] s2)
    as (s' & entries & Hrun & Hall).
  rewrite Hrun. exists s', entries. cbn [fst snd app ok].
  split; [reflexivity|].
  split; [symmetry; exact (Forall2_length Hall) | exact Hall].
Qed.

(** A request that reaches the loop with a question that cannot be
    converted to a string, behind questions that can, is answered by the
    outer [catch] clause: status 500 and an error message, no answers
    list, whatever questions follow. *)
Lemma POST_aborts_on_unprintable (parsed d : JsValue)
  (before after : list JsValue) (bad : JsValue) (e : Exn)
  (s s1 s2 : St W) (fullText : JsString) (chunks : list JsString)
  (chunkEmbeddings : list (list R)) :
  destructure parsed = ok (Some d, Some (JArray (before ++ bad :: after))) ->
  truthy (Some d) = true ->
  downloadPdf fetch pdf Number_toString d s = (s1, ok fullText) ->
  isEmpty (trim fullText) = false ->
  chunkText fullText 500 = ok chunks ->
  getEmbeddings embeddings_create chunks s1 = (s2, ok chunkEmbeddings) ->
  Forall (fun q => exists shown, ToString Number_toString q = ok shown)
    before ->
  ToString Number_toString bad = throw e ->
  exists s' : St W,
    POST fetch pdf embeddings_create askOpenRouter Number_toString
      (ok parsed) s
    = (s', ok (json (ErrorBody (if isEmpty (message e)
                                then js "Internal server error"
                                else message e)) 500)).
Proof.
  intros Hd Hdoc Hdown Htext Hchunk Hembed Hbefore Hbad.
  assert (Hq : before ++ bad :: after <> []) by (destruct before; discriminate).
  rewrite (POST_reaches_loop parsed d _ s s1 s2 fullText chunks
             chunkEmbeddings Hd Hdoc Hq Hdown Htext Hchunk Hembed).
  destruct (questionLoop_aborts chunks chunkEmbeddings before after bad e
              Hbefore Hbad [] s2) as [s' Hrun].
  rewrite Hrun. exists s'. reflexivity.
Qed.

End HandlerProperties.

Lemma POST_invalid_request_witness :
  POST Sample.fetch Sample.pdf Sample.embeddings_create Sample.askOpenRouter
    Sample.Number_toString
    (ok (JObject [(js "documents", Sample.url); (js "questions", JArray [])]))
    Sample.start
  = (Sample.start,
     ok (json (ErrorBody (js "Invalid request. Please provide documents URL and questions array.")) 400)).
Proof.
  apply (POST_invalid_request unit Sample.fetch Sample.pdf
           Sample.embeddings_create Sample.askOpenRouter Sample.Number_toString
           [(js "documents", Sample.url); (js "questions", JArray [])]
           Sample.start).
  right; right; right. reflexivity.
Defined.

(** C1 at a failing input.  The request
    [{"documents": "https://example.com/policy.pdf", "questions": [{"toString": 1}]}]
    passes the validation and reaches the loop with one question.  [trim]
    cannot be called on the question, and the [catch] clause of the loop
    throws in turn while converting the question to a string; the exception
    leaves the loop, and the handler answers with status 500 and an error
    message: no answers list is returned. *)
Theorem POST_unprintable_question_returns_error :
  Sample.run [Sample.unprintable]
  = (Sample.atLoop,
     ok (json (ErrorBody (js "Cannot convert object to primitive value")) 500)).
Proof. reflexivity. Qed.

(** C10 at a failing input.  With the questions
    [[{"toString": 1}, "Is fire covered?"]] the first question, which is
    not a string, aborts the request: the handler answers with status 500,
    no placeholder is returned for the first question, and the second
    question is never processed (no call is made after the corpus was
    embedded). *)
Theorem POST_unprintable_question_aborts_request :
  Sample.run [Sample.unprintable; JString (js "Is fire covered?")]
  = (Sample.atLoop,
     ok (json (ErrorBody (js "Cannot convert object to primitive value")) 500)).
Proof. reflexivity. Qed.

(** By contrast [null], a number and a blank string each get their
    placeholder, and the loop goes on. *)
Example POST_null_number_empty :
  Sample.run [JNull; JNumber Sample.Literals.one; JString (js " ")]
  = (Sample.atLoop,
     ok (json (AnswersBody
                 [js "Error: Failed to process the question: null";
                  js "Error: Failed to process the question: 1";
                  js "Error: Empty question provided"]) 200)).
Proof. reflexivity. Qed.

Lemma POST_answers_entries_witness :
  exists (parsed : JsValue) (documents : option JsValue)
         (questions : list JsValue),
    Sample.request [JNull; JString (js " ")] = ok parsed
    /\ destructure parsed = ok (documents, Some (JArray questions))
    /\ questions <> []
    /\ 200%Z = 200%Z
    /\ length [js "Error: Failed to process the question: null";
               js "Error: Empty question provided"] = length questions
    /\ Forall2 (entryFor Sample.askOpenRouter Sample.Number_toString) questions
         [js "Error: Failed to process the question: null";
          js "Error: Empty question provided"].
Proof.
  apply (POST_answers_entries unit Sample.fetch Sample.pdf
           Sample.embeddings_create Sample.askOpenRouter Sample.Number_toString
           (Sample.request [JNull; JString (js " ")]) Sample.start Sample.atLoop).
  reflexivity.
Defined.

(** Tab, no-break space and the byte order mark are white space; the zero
    width space and the letter [a] are not. *)
Example isSpace_examples :
  map isSpace [9; 160; 65279; 8203; 97]%N = [true; true; true; false; false].
Proof. reflexivity. Qed.

(** Leading and trailing white space leave an empty piece at that end. *)
Example split_examples :
  split (js " a  b ") = [js ""; js "a"; js "b"; js ""]
  /\ split (js "") = [js ""]
  /\ trim (js "  a b  ") = js "a b".
Proof. repeat split; reflexivity. Qed.

(** The chunking scenario of the specification. *)
Example chunkText_scenario :
  chunkText (js "one two three four five") 2
  = ok [js "one two"; js "three four"; js "five"].
Proof. reflexivity. Qed.

Lemma POST_answers_when_printable_witness :
  exists (s' : St unit) (answers : list JsString),
    POST Sample.fetch Sample.pdf Sample.embeddings_create Sample.askOpenRouter
      Sample.Number_toString
      (ok (JObject [(js "documents", Sample.url);
                    (js "questions", JArray [JNull; JString (js " ")])]))
      Sample.start
    = (s', ok (json (AnswersBody answers) 200))
    /\ length answers = length [JNull; JString (js " ")]
    /\ Forall2 (entryFor Sample.askOpenRouter Sample.Number_toString)
         [JNull; JString (js " ")] answers.
Proof.
  apply (POST_answers_when_printable unit Sample.fetch Sample.pdf
           Sample.embeddings_create Sample.askOpenRouter Sample.Number_toString
           (JObject [(js "documents", Sample.url);
                     (js "questions", JArray [JNull; JString (js " ")])])
           Sample.url [JNull; JString (js " ")]
           Sample.start
           {| world := tt;
              trace := [EvFetch Sample.url; EvPdf Sample.pdfBytes] |}
           Sample.atLoop
           (js "Fire damage is covered.")
           [js "Fire damage is covered."]
           [[1%R]]).
  - reflexivity.
  - reflexivity.
  - discriminate.
  - reflexivity.
  - reflexivity.
  - reflexivity.
  - reflexivity.
  - constructor; [eexists; reflexivity|].
    constructor; [eexists; reflexivity | constructor].
Defined.

(* ================================================================== *)
(** ** Scenarios *)
(* ================================================================== *)

(** Eleven texts: a batch of ten, a pause, a batch of one. *)
Example getEmbeddings_eleven_texts :
  getEmbeddings Sample.embeddings_create (repeat (js "t") 11) Sample.start
  = ({| world := tt;
        trace := [EvEmbed (repeat (js "t") 10); EvPause 200; EvEmbed [js "t"]] |},
     ok (repeat [1%R] 11)).
Proof. reflexivity. Qed.

Section RankingScenario.
Local Open Scope R_scope.

Lemma scenario_sim0 : similarity [1; 0] [1; 0] = 1.
Proof. apply similarity_self, nonZero_1_0. Qed.

Lemma scenario_sim1 : similarity [1; 0] [0; 1] = 0.
Proof.
  unfold similarity. rewrite !dotProduct_cons. unfold dotProduct at 1; simpl.
  unfold Rdiv. lra.
Qed.

Lemma scenario_sim2 : 0 < similarity [1; 0] [9/10; 1/10] < 1.
Proof.
  unfold similarity, magnitude. rewrite !dotProduct_cons, !sumSquares_cons.
  unfold dotProduct, sumSquares; simpl.
  replace (1 * 1 + (0 * 0 + 0)) with 1 by lra. rewrite sqrt_1.
  assert (H : 9/10 < sqrt (9 / 10 * (9 / 10) + (1 / 10 * (1 / 10) + 0))).
  { rewrite <- (sqrt_square (9/10)) at 1 by lra. apply sqrt_lt_1; lra. }
  set (m := sqrt _) in *.
  split.
  - apply Rdiv_lt_0_compat; lra.
  - apply (Rmult_lt_reg_r (1 * m)); [lra|]. unfold Rdiv.
    rewrite Rmult_assoc, Rinv_l by lra. lra.
Qed.

Lemma scenario_valid :
  validRanking [1; 0] [[1; 0]; [0; 1]; [9/10; 1/10]] [js "A"; js "B"; js "C"].
Proof.
  split; [exact nonZero_1_0|]. split; [discriminate|]. split; [reflexivity|].
  constructor; [split; [reflexivity | exact nonZero_1_0]|].
  constructor; [split; [reflexivity | exact nonZero_0_1]|].
  constructor; [split; [reflexivity | constructor; lra] | constructor].
Qed.

(** The ranking scenario of the specification: the chunks of the two best
    scores, best first. *)
Example findRelevantChunks_scenario :
  findRelevantChunks [1; 0] [[1; 0]; [0; 1]; [9/10; 1/10]]
    [js "A"; js "B"; js "C"] 2
  = ok [js "A"; js "C"].
Proof.
  rewrite (findRelevantChunks_ok _ _ _ 2%Z scenario_valid).
  cbn [scoredFrom sortDesc insertDesc score index].
  rewrite scenario_sim0, scenario_sim1.
  pose proof scenario_sim2 as [Hpos Hlt].
  destruct (Rlt_dec 0 (similarity [1; 0] [9 / 10; 1 / 10])); [|contradiction].
  cbn [insertDesc score].
  destruct (Rlt_dec 1 (similarity [1; 0] [9 / 10; 1 / 10])); [lra|].
  reflexivity.
Qed.
End RankingScenario.

Section SampleRun.
Local Open Scope R_scope.

Lemma sample_getEmbeddings_one (q : JsString) (s : St unit) :
  getEmbeddings Sample.embeddings_create [q] s
  = ({| world := tt; trace := trace s ++ [EvEmbed [q]] |}, ok [[1]]).
Proof.
  unfold getEmbeddings, tryCatch. cbn [length Nat.eqb].
  simp embedLoop. cbn. destruct s as [[] tr]. reflexivity.
Qed.

Lemma sample_rank (chunk : JsString) :
  findRelevantChunks [1] [[1]] [chunk] 3 = ok [chunk].
Proof.
  assert (H : nonZero [1]) by (constructor; lra).
  rewrite findRelevantChunks_ok; [reflexivity|].
  split; [exact H|]. split; [discriminate|]. split; [reflexivity|].
  constructor; [split; [reflexivity | exact H] | constructor].
Qed.

Lemma sample_processQuestion (q : JsString) (results : list JsString)
  (chunk : JsString) (s : St unit) :
  isEmpty (trim q) = false ->
  processQuestion Sample.embeddings_create Sample.askOpenRouter
    Sample.Number_toString [chunk] [[1]] results (JString q) s
  = ({| world := tt; trace := trace s ++ [EvEmbed [q]; EvAsk q [chunk]] |},
     ok (results ++ [js "Yes."])).
Proof.
  intros Hq.
  cbv beta iota zeta delta [processQuestion tryCatch bind liftRes callTrim ok ret].
  rewrite Hq.
  match goal with
  | |- context [@getEmbeddings unit Sample.embeddings_create ?l s] =>
      change (@getEmbeddings unit Sample.embeddings_create l s)
        with (getEmbeddings Sample.embeddings_create [q] s)
  end.
  rewrite sample_getEmbeddings_one. cbv beta iota delta [ok].
  rewrite sample_rank. cbv beta iota delta [ok].
  unfold call, Sample.askOpenRouter. cbn [world trace].
  now rewrite <- app_assoc.
Qed.

(** Three questions, the second one empty: its position holds the
    placeholder, the other two hold answers. *)
Example POST_three_questions :
  Sample.run [JString (js "Is fire covered?"); JString (js "");
              JString (js "Is flood covered?")]
  = ({| world := tt;
        trace := trace Sample.atLoop
                 ++ [EvEmbed [js "Is fire covered?"];
                     EvAsk (js "Is fire covered?") [js "Fire damage is covered."];
                     EvEmbed [js "Is flood covered?"];
                     EvAsk (js "Is flood covered?") [js "Fire damage is covered."]] |},
     ok (json (AnswersBody [js "Yes."; js "Error: Empty question provided"; js "Yes."]) 200)).
Proof.
  unfold Sample.run, Sample.request.
  rewrite (POST_reaches_loop unit Sample.fetch Sample.pdf
             Sample.embeddings_create Sample.askOpenRouter Sample.Number_toString
             (JObject [(js "documents", Sample.url);
                       (js "questions",
                        JArray [JString (js "Is fire covered?"); JString (js "");
                                JString (js "Is flood covered?")])])
             Sample.url
             [JString (js "Is fire covered?"); JString (js "");
              JString (js "Is flood covered?")]
             Sample.start
             {| world := tt; trace := [EvFetch Sample.url; EvPdf Sample.pdfBytes] |}
             Sample.atLoop (js "Fire damage is covered.")
             [js "Fire damage is covered."] [[1]]);
    try reflexivity; try discriminate.
  cbn [questionLoop]. unfold bind.
  rewrite sample_processQuestion by reflexivity. cbv beta iota delta [ok].
  replace (processQuestion Sample.embeddings_create Sample.askOpenRouter
             Sample.Number_toString [js "Fire damage is covered."] [[1]]
             ([] ++ [js "Yes."]) (JString (js "")))
    with (fun s : St unit => (s, ok (([] ++ [js "Yes."]) ++ [js "Error: Empty question provided"])))
    by reflexivity.
  cbv beta iota delta [ok].
  rewrite sample_processQuestion by reflexivity.
  reflexivity.
Qed.
End SampleRun.

(* ================================================================== *)
(** ** Further properties of chunkText *)
(* ================================================================== *)

Lemma fullButLast_concat_length {A : Type} (n : nat) (wins : list (list A)) :
  fullButLast n wins -> wins <> [] ->
  exists r : nat,
    (1 <= r <= n)%nat
    /\ length (concat wins) = (n * (length wins - 1) + r)%nat.
Proof.
  induction wins as [|w rest IH]; [congruence|]. intros Hfull _.
  destruct rest as [|w' rest'].
  - exists (length w). simpl in *. rewrite app_nil_r. split; [exact Hfull | lia].
  - destruct Hfull as [Hlen Hfull].
    destruct (IH Hfull) as (r & Hr & Hcat); [discriminate|].
    exists r. split; [exact Hr|].
    change (concat (w :: w' :: rest')) with (w ++ concat (w' :: rest')).
    rewrite length_app, Hcat, Hlen. cbn [length].
    replace (S (S (length rest')) - 1)%nat with (S (length rest')) by lia.
    replace (S (length rest') - 1)%nat with (length rest') by lia.
    rewrite (Nat.mul_succ_r n (length rest')). lia.
Qed.

(** X3.  For a non-empty text and a positive [maxWords] the number of
    chunks is the number of words of [text.split(/\s+/)] divided by
    [maxWords], rounded up. *)
Theorem chunkText_chunk_count (text : JsString) (maxWords : Z) :
  text <> [] -> (0 < maxWords)%Z ->
  exists chunks : list JsString,
    chunkText text maxWords = ok chunks
    /\ Z.of_nat (length chunks)
       = ((Z.of_nat (length (split text)) + maxWords - 1) / maxWords)%Z.
Proof.
  intros Htext Hpos.
  destruct (chunkText_windows text maxWords Htext Hpos)
    as (wins & Hrun & Hcat & Hfull & _).
  exists (map (join SPACE) wins). split; [exact Hrun|].
  assert (Hne : wins <> []).
  { intros ->. simpl in Hcat. symmetry in Hcat.
    exact (splitFrom_not_nil false text Hcat). }
  destruct (fullButLast_concat_length _ _ Hfull Hne) as (r & Hr & Hlen).
  rewrite Hcat in Hlen. rewrite length_map, Hlen.
  assert (Hk : (1 <= length wins)%nat) by (destruct wins; [congruence | simpl; lia]).
  apply (Z.div_unique _ _ _ (Z.of_nat r - 1)); [lia|].
  rewrite Nat2Z.inj_add, Nat2Z.inj_mul, Nat2Z.inj_sub by lia.
  rewrite Z2Nat.id by lia. change (Z.of_nat 1) with 1%Z. ring.
Qed.

Lemma chunkText_chunk_count_witness :
  exists chunks : list JsString,
    chunkText (js "one two three four five") 2 = ok chunks
    /\ Z.of_nat (length chunks)
       = ((Z.of_nat (length (split (js "one two three four five"))) + 2 - 1) / 2)%Z.
Proof.
  apply (chunkText_chunk_count (js "one two three four five") 2);
    [discriminate | reflexivity].
Defined.

Lemma noSpace_cons (c : N) (w : JsString) :
  noSpace (c :: w) -> isSpace c = false /\ noSpace w.
Proof.
  unfold noSpace; simpl. intros H. apply andb_prop in H as [Hc Hw].
  split; [now apply negb_true_iff | exact Hw].
Qed.

Lemma singleSpaced_app_noSpace (w t : JsString) :
  noSpace w -> singleSpaced t -> singleSpaced (w ++ t).
Proof.
  induction w as [|c w IH]; intros Hw Ht; [exact Ht|].
  apply noSpace_cons in Hw as [Hc Hw]. cbn [app singleSpaced].
  split; [intros Hs; congruence | now apply IH].
Qed.

(** A joined word sequence whose pieces but the last are non-empty is
    single-spaced and does not start with white space. *)
Lemma join_singleSpaced_tail (ws : list JsString) :
  Forall noSpace ws -> nonEmptyButLast ws ->
  singleSpaced (join SPACE ws)
  /\ match join SPACE ws with [] => True | d :: _ => isSpace d = false end.
Proof.
  induction ws as [|w rest IH]; intros Hns Hne; [split; exact I|].
  inversion Hns as [|? ? Hw Hrest]; subst.
  destruct rest as [|w' rest'].
  - cbn [join]. split.
    + rewrite <- (app_nil_r w). apply singleSpaced_app_noSpace; [exact Hw | exact I].
    + destruct w as [|c w]; [exact I|]. now apply noSpace_cons in Hw as [Hc _].
  - destruct Hne as [Hw0 Hne]. destruct (IH Hrest Hne) as [IHs IHf].
    change (join SPACE (w :: w' :: rest'))
      with (w ++ 32%N :: join SPACE (w' :: rest')).
    split.
    + apply singleSpaced_app_noSpace; [exact Hw|].
      cbn [singleSpaced]. split; [|exact IHs]. intros _. split; [reflexivity|].
      exact IHf.
    + destruct w as [|c w]; [congruence|]. now apply noSpace_cons in Hw as [Hc _].
Qed.

Lemma join_singleSpaced (ws : list JsString) :
  Forall noSpace ws -> innerNonEmpty ws -> singleSpaced (join SPACE ws).
Proof.
  intros Hns Hin. destruct ws as [|w rest]; [exact I|].
  inversion Hns as [|? ? Hw Hrest]; subst.
  destruct rest as [|w' rest'].
  - cbn [join]. rewrite <- (app_nil_r w).
    apply singleSpaced_app_noSpace; [exact Hw | exact I].
  - destruct (join_singleSpaced_tail (w' :: rest') Hrest Hin) as [Hs Hf].
    change (join SPACE (w :: w' :: rest'))
      with (w ++ 32%N :: join SPACE (w' :: rest')).
    apply singleSpaced_app_noSpace; [exact Hw|].
    cbn [singleSpaced]. split; [|exact Hs]. intros _. split; [reflexivity | exact Hf].
Qed.

(** X4.  Chunking normalises white space: in every chunk every white-space
    character (tab, line break, no-break space, ...) of the text has become
    a plain space, and no two spaces are adjacent. *)
Theorem chunkText_single_spaced (text : JsString) (maxWords : Z) :
  text <> [] -> (0 < maxWords)%Z ->
  exists chunks : list JsString,
    chunkText text maxWords = ok chunks /\ Forall singleSpaced chunks.
Proof.
  intros Htext Hpos.
  destruct (chunkText_windows text maxWords Htext Hpos)
    as (wins & Hrun & _ & _ & Hseq).
  exists (map (join SPACE) wins). split; [exact Hrun|].
  apply Forall_map. eapply Forall_impl; [|exact Hseq].
  intros w (_ & Hns & Hin). now apply join_singleSpaced.
Qed.

Lemma chunkText_single_spaced_witness :
  exists chunks : list JsString,
    chunkText (N.of_nat 9 :: js "a" ++ [10%N; 10%N] ++ js "b") 1 = ok chunks
    /\ Forall singleSpaced chunks.
Proof.
  apply (chunkText_single_spaced (N.of_nat 9 :: js "a" ++ [10%N; 10%N] ++ js "b") 1);
    [discriminate | reflexivity].
Defined.

(** X5.  Joining the chunks with single spaces gives the words of the
    text joined with single spaces, whatever [maxWords] is; for a text
    that is already a word sequence joined with single spaces, it gives
    the text back. *)
Theorem chunkText_rejoin (text : JsString) (maxWords : Z) :
  text <> [] -> (0 < maxWords)%Z ->
  exists chunks : list JsString,
    chunkText text maxWords = ok chunks
    /\ join SPACE chunks = join SPACE (split text)
    /\ (forall ws : list JsString,
          wordSequence ws -> text = join SPACE ws -> join SPACE chunks = text).
Proof.
  intros Htext Hpos.
  destruct (chunkText_windows text maxWords Htext Hpos)
    as (wins & Hrun & Hcat & Hfull & _).
  exists (map (join SPACE) wins). split; [exact Hrun|].
  assert (Hjoin : join SPACE (map (join SPACE) wins) = join SPACE (split text)).
  { rewrite join_windows, Hcat; [reflexivity|].
    apply (fullButLast_not_nil (Z.to_nat maxWords)); [lia | exact Hfull]. }
  split; [exact Hjoin|].
  intros ws Hws ->. rewrite Hjoin. now rewrite (split_join ws Hws).
Qed.

Lemma chunkText_rejoin_witness :
  exists chunks : list JsString,
    chunkText (js "a b  c") 2 = ok chunks
    /\ join SPACE chunks = join SPACE (split (js "a b  c"))
    /\ (forall ws : list JsString,
          wordSequence ws -> js "a b  c" = join SPACE ws ->
          join SPACE chunks = js "a b  c").
Proof.
  apply (chunkText_rejoin (js "a b  c") 2); [discriminate | reflexivity].
Defined.

(* ================================================================== *)
(** ** Further properties of cosineSimilarity *)
(* ================================================================== *)

Section VectorMathMore.

Local Open Scope R_scope.

Lemma nonZero_dec (a : list R) : {nonZero a} + {~ nonZero a}.
Proof.
  apply Exists_dec. intros x. destruct (Req_dec_T x 0); [right | left]; tauto.
Qed.

Lemma sumSquares_zero (a : list R) : ~ nonZero a -> sumSquares a = 0.
Proof.
  induction a as [|x a IH]; intros H; [reflexivity|].
  rewrite sumSquares_cons.
  destruct (Req_dec_T x 0) as [->|Hx]; [|exfalso; apply H; now left].
  rewrite IH; [lra|]. intros Ha. apply H. now right.
Qed.

Lemma magnitude_nonZero_iff (a : list R) : magnitude a <> 0 <-> nonZero a.
Proof.
  split; [|apply magnitude_nonZero].
  intros H. destruct (nonZero_dec a) as [Ha|Ha]; [exact Ha|].
  exfalso. apply H. unfold magnitude. rewrite (sumSquares_zero a Ha).
  apply sqrt_0.
Qed.

(** What a returned value tells about the arguments. *)
Lemma cosineSimilarity_inv (a b : list R) (s : R) :
  cosineSimilarity a b = ok s ->
  a <> [] /\ length a = length b /\ nonZero a /\ nonZero b
  /\ s = similarity a b.
Proof.
  unfold cosineSimilarity.
  destruct a as [|x a]; [discriminate|]. destruct b as [|y b]; [discriminate|].
  cbn [length Nat.eqb orb].
  destruct (length a =? length b)%nat eqn:Hlen; [|discriminate].
  cbn [negb].
  destruct (Req_dec_T (magnitude (x :: a)) 0) as [|Ha]; [discriminate|].
  destruct (Req_dec_T (magnitude (y :: b)) 0) as [|Hb]; [discriminate|].
  intros H. injection H as <-. apply Nat.eqb_eq in Hlen.
  split; [discriminate|]. split; [simpl; now rewrite Hlen|].
  split; [now apply magnitude_nonZero_iff|].
  split; [now apply magnitude_nonZero_iff | reflexivity].
Qed.

(** X6.  [cosineSimilarity] returns exactly when both vectors are
    non-empty, of the same length and non-zero; it then returns the dot
    product divided by the product of the magnitudes.  In every other case
    it throws. *)
Theorem cosineSimilarity_ok_iff (a b : list R) (s : R) :
  cosineSimilarity a b = ok s
  <-> a <> [] /\ length a = length b /\ nonZero a /\ nonZero b
      /\ s = similarity a b.
Proof.
  split; [apply cosineSimilarity_inv|].
  intros (Hne & Hlen & Ha & Hb & ->).
  apply cosineSimilarity_ok; try assumption; now apply magnitude_nonZero.
Qed.

(** The inequality of Cauchy and Schwarz for [dotProduct]. *)
Lemma dotProduct_square_le (a : list R) :
  forall b : list R,
    dotProduct a b * dotProduct a b <= sumSquares a * sumSquares b.
Proof.
  induction a as [|x a IH]; intros [|y b].
  - unfold dotProduct, sumSquares; simpl; lra.
  - unfold dotProduct; simpl. pose proof (sumSquares_nonneg (y :: b)).
    unfold sumSquares at 1; simpl. lra.
  - unfold dotProduct; simpl. pose proof (sumSquares_nonneg (x :: a)).
    unfold sumSquares at 2; simpl. lra.
  - rewrite dotProduct_cons, !sumSquares_cons.
    specialize (IH b).
    pose proof (sumSquares_nonneg a) as HA.
    pose proof (sumSquares_nonneg b) as HB.
    set (d := dotProduct a b) in *. set (A := sumSquares a) in *.
    set (B := sumSquares b) in *.
    assert (Hcross : 2 * (x * y * d) <= x * x * B + y * y * A).
    { assert (Hu : 0 <= x * x * B + y * y * A) by nra.
      assert (Hsq : (2 * (x * y * d)) * (2 * (x * y * d))
                    <= (x * x * B + y * y * A) * (x * x * B + y * y * A)).
      { assert (H1 : 0 <= (x * x * B - y * y * A) * (x * x * B - y * y * A))
          by apply Rle_0_sqr.
        assert (H2 : 0 <= (x * x) * (y * y) * (A * B - d * d)).
        { apply Rmult_le_pos; [|lra].
          apply Rmult_le_pos; apply Rle_0_sqr. }
        nra. }
      destruct (Rle_lt_dec (2 * (x * y * d)) (x * x * B + y * y * A)) as [|Hgt];
        [assumption|].
      exfalso. nra. }
    nra.
Qed.

(** X7.  Whenever [cosineSimilarity] returns, the value lies between -1
    and 1. *)
Theorem cosineSimilarity_range (a b : list R) (s : R) :
  cosineSimilarity a b = ok s -> -1 <= s <= 1.
Proof.
  intros H. apply cosineSimilarity_inv in H as (_ & _ & Ha & Hb & ->).
  pose proof (sqrt_lt_R0 _ (sumSquares_nonZero a Ha)) as Hma.
  pose proof (sqrt_lt_R0 _ (sumSquares_nonZero b Hb)) as Hmb.
  pose proof (dotProduct_square_le a b) as Hcs.
  unfold similarity, magnitude.
  set (ma := sqrt (sumSquares a)) in *. set (mb := sqrt (sumSquares b)) in *.
  assert (Hsa : ma * ma = sumSquares a) by apply sqrt_sqrt, sumSquares_nonneg.
  assert (Hsb : mb * mb = sumSquares b) by apply sqrt_sqrt, sumSquares_nonneg.
  rewrite <- Hsa, <- Hsb in Hcs.
  set (d := dotProduct a b) in *.
  assert (Hm : 0 < ma * mb) by now apply Rmult_lt_0_compat.
  assert (Hd : - (ma * mb) <= d <= ma * mb).
  { split.
    - destruct (Rle_lt_dec (- (ma * mb)) d); [assumption | exfalso; nra].
    - destruct (Rle_lt_dec d (ma * mb)); [assumption | exfalso; nra]. }
  split.
  - apply (Rmult_le_reg_r (ma * mb)); [exact Hm|].
    unfold Rdiv. rewrite Rmult_assoc, Rinv_l by lra. lra.
  - apply (Rmult_le_reg_r (ma * mb)); [exact Hm|].
    unfold Rdiv. rewrite Rmult_assoc, Rinv_l by lra. lra.
Qed.

Lemma cosineSimilarity_range_witness : -1 <= 1 <= 1.
Proof.
  apply (cosineSimilarity_range [1; 0] [1; 0] 1).
  apply cosineSimilarity_self, nonZero_1_0.
Defined.

Lemma dotProduct_scale (k : R) (a b : list R) :
  dotProduct (map (Rmult k) a) b = k * dotProduct a b.
Proof.
  revert b; induction a as [|x a IH]; intros [|y b];
    try (unfold dotProduct; simpl; lra).
  cbn [map]. rewrite !dotProduct_cons, IH. lra.
Qed.

Lemma sumSquares_scale (k : R) (a : list R) :
  sumSquares (map (Rmult k) a) = k * k * sumSquares a.
Proof.
  induction a as [|x a IH]; [unfold sumSquares; simpl; lra|].
  cbn [map]. rewrite !sumSquares_cons, IH. lra.
Qed.

Lemma magnitude_scale (k : R) (a : list R) :
  0 < k -> magnitude (map (Rmult k) a) = k * magnitude a.
Proof.
  intros Hk. unfold magnitude. rewrite sumSquares_scale.
  rewrite sqrt_mult_alt by nra. rewrite sqrt_square by lra. reflexivity.
Qed.

(** X8.  The similarity does not depend on the length of a vector:
    multiplying every component of the first vector by the same positive
    number changes neither the value nor the error. *)
Theorem cosineSimilarity_scale (k : R) (a b : list R) :
  0 < k -> cosineSimilarity (map (Rmult k) a) b = cosineSimilarity a b.
Proof.
  intros Hk. unfold cosineSimilarity.
  rewrite length_map, dotProduct_scale, (magnitude_scale k a Hk).
  destruct ((length a =? 0)%nat || (length b =? 0)%nat); [reflexivity|].
  destruct (negb (length a =? length b)%nat); [reflexivity|].
  destruct (Req_dec_T (k * magnitude a) 0) as [Hz|Hz],
           (Req_dec_T (magnitude a) 0) as [Hz'|Hz'];
    try reflexivity; try (exfalso; nra).
  destruct (Req_dec_T (magnitude b) 0) as [|Hb]; [reflexivity|].
  f_equal. field. lra.
Qed.

Lemma cosineSimilarity_scale_witness :
  cosineSimilarity (map (Rmult 2) [3; 4]) [1; 0] = cosineSimilarity [3; 4] [1; 0].
Proof.
  apply (cosineSimilarity_scale 2 [3; 4] [1; 0]). lra.
Defined.

End VectorMathMore.

(* ================================================================== *)
(** ** Further properties of findRelevantChunks with real scores *)
(* ================================================================== *)

Section RankingMore.

Local Open Scope R_scope.

Lemma scoreFrom_inv (query : list R) (dv : list (list R)) :
  forall (i : nat) (sims : list Scored),
    scoreFrom query i dv = ok sims ->
    Forall (fun e => length e = length query /\ nonZero e) dv
    /\ (dv <> [] -> nonZero query).
Proof.
  induction dv as [|e dv IH]; intros i sims H.
  - split; [constructor | congruence].
  - cbn [scoreFrom] in H.
    destruct (cosineSimilarity query e) as [err|s0] eqn:Hcos; [discriminate|].
    cbn [bindRes] in H.
    destruct (scoreFrom query (S i) dv) as [err|r] eqn:Hrest; [discriminate|].
    apply cosineSimilarity_inv in Hcos as (_ & Hlen & Hq & He & _).
    destruct (IH _ _ Hrest) as [Hall _].
    split; [constructor; [split; [now symmetry | exact He] | exact Hall]|].
    intros _; exact Hq.
Qed.

(** A call that returns was made on a valid input. *)
Lemma findRelevantChunks_inv (query : list R) (dv : list (list R))
  (dc : list JsString) (topK : Z) (r : list JsString) :
  findRelevantChunks query dv dc topK = ok r -> validRanking query dv dc.
Proof.
  unfold findRelevantChunks.
  destruct (length query =? 0)%nat; [discriminate|].
  destruct (length dv =? 0)%nat eqn:Hdv; [discriminate|].
  destruct (length dc =? 0)%nat; [discriminate|].
  destruct (length dv =? length dc)%nat eqn:Hlen; [|discriminate].
  cbn [negb].
  destruct (scoreFrom query 0 dv) as [err|sims] eqn:Hs; [discriminate|].
  intros _. apply Nat.eqb_neq in Hdv. apply Nat.eqb_eq in Hlen.
  assert (Hne : dv <> []) by (intros ->; now apply Hdv).
  destruct (scoreFrom_inv _ _ _ _ Hs) as [Hall Hq].
  split; [now apply Hq|]. split; [exact Hne|]. split; assumption.
Qed.

Lemma scoredFrom_indices (query : list R) (i : nat) (dv : list (list R)) :
  map index (scoredFrom query i dv) = seq i (length dv).
Proof.
  revert i; induction dv as [|e dv IH]; intros i; simpl; [reflexivity|].
  now rewrite IH.
Qed.

Lemma StronglySorted_app_cross {A : Type} (P : A -> A -> Prop)
  (l1 l2 : list A) :
  StronglySorted P (l1 ++ l2) ->
  forall x y, In x l1 -> In y l2 -> P x y.
Proof.
  induction l1 as [|a l1 IH]; intros Hs x y Hx Hy; [destruct Hx|].
  inversion Hs as [|? ? Hrest Hall]; subst.
  destruct Hx as [<-|Hx]; [|now apply IH].
  rewrite Forall_forall in Hall. apply Hall, in_or_app. now right.
Qed.

End RankingMore.

(* ================================================================== *)
(** ** Properties of findRelevantChunks on doubles *)
(* ================================================================== *)

Section RankingBinary64.

Lemma insertDesc_step_double (x y : Binary64.Scored)
  (l : list Binary64.Scored) :
  Binary64.insertDesc x (y :: l)
  = if Binary64.lower x y then y :: Binary64.insertDesc x l else x :: y :: l.
Proof. reflexivity. Qed.

Lemma insertDesc_perm_double (x : Binary64.Scored) (l : list Binary64.Scored) :
  Permutation (Binary64.insertDesc x l) (x :: l).
Proof.
  induction l as [|y l IH]; [apply Permutation_refl|].
  rewrite insertDesc_step_double.
  destruct (Binary64.lower x y); [|apply Permutation_refl].
  apply perm_trans with (y :: x :: l); [now constructor | apply perm_swap].
Qed.

Lemma sortDesc_perm_double (l : list Binary64.Scored) :
  Permutation (Binary64.sortDesc l) l.
Proof.
  induction l as [|x l IH]; cbn [Binary64.sortDesc]; [constructor|].
  apply perm_trans with (x :: Binary64.sortDesc l);
    [apply insertDesc_perm_double | now constructor].
Qed.

(** What the test [consistent] says of the entries of [l]. *)
Lemma consistent_spec (l : list Binary64.Scored) :
  Binary64.consistent l = true ->
  (forall x, In x l -> Binary64.lower x x = false)
  /\ (forall x y z, In x l -> In y l -> In z l ->
        Binary64.lower x y = true -> Binary64.lower y z = true ->
        Binary64.lower x z = true)
  /\ (forall x y z, In x l -> In y l -> In z l ->
        Binary64.lower x y = false -> Binary64.lower y z = false ->
        Binary64.lower x z = false).
Proof.
  unfold Binary64.consistent. rewrite forallb_forall. intros H.
  split; [|split].
  - intros x Hx. apply H in Hx. apply andb_true_iff in Hx as [Hx _].
    now apply negb_true_iff.
  - intros x y z Hx Hy Hz Hxy Hyz. apply H in Hx.
    apply andb_true_iff in Hx as [_ Hx].
    rewrite forallb_forall in Hx. specialize (Hx y Hy).
    rewrite forallb_forall in Hx. specialize (Hx z Hz).
    apply andb_true_iff in Hx as [Hx _]. rewrite Hxy, Hyz in Hx. exact Hx.
  - intros x y z Hx Hy Hz Hxy Hyz. apply H in Hx.
    apply andb_true_iff in Hx as [_ Hx].
    rewrite forallb_forall in Hx. specialize (Hx y Hy).
    rewrite forallb_forall in Hx. specialize (Hx z Hz).
    apply andb_true_iff in Hx as [_ Hx]. rewrite Hxy, Hyz in Hx.
    now apply negb_true_iff.
Qed.

(** With a consistent comparator, inserting an entry that comes earlier in
    the document than every entry of a ranked list keeps the list ranked. *)
Lemma insertDesc_sorted_double (univ : list Binary64.Scored)
  (x : Binary64.Scored) (l : list Binary64.Scored) :
  Binary64.consistent univ = true ->
  In x univ -> incl l univ ->
  StronglySorted Binary64.ranksBefore l ->
  Forall (fun y => (Binary64.index x < Binary64.index y)%nat) l ->
  StronglySorted Binary64.ranksBefore (Binary64.insertDesc x l).
Proof.
  intros Hc Hx Hincl Hs Hidx.
  destruct (consistent_spec _ Hc) as (Hirr & Htr & Hneg).
  revert Hincl Hidx. induction Hs as [|y l Hl IH Hy]; intros Hincl Hidx.
  - constructor; constructor.
  - inversion Hidx as [|? ? Hxy Hxl]; subst.
    assert (Hyu : In y univ) by (apply Hincl; now left).
    assert (Hlu : incl l univ) by (intros z Hz; apply Hincl; now right).
    rewrite insertDesc_step_double.
    destruct (Binary64.lower x y) eqn:Hlow.
    + constructor; [now apply IH|].
      apply (Permutation_Forall (Permutation_sym (insertDesc_perm_double x l))).
      constructor; [left; exact Hlow | exact Hy].
    + constructor; [now constructor|].
      constructor; [right; split; assumption|].
      rewrite Forall_forall in *. intros z Hz.
      specialize (Hy z Hz). specialize (Hxl z Hz).
      right. split; [|exact Hxl].
      destruct Hy as [Hzy | [Hyz _]].
      * destruct (Binary64.lower x z) eqn:Hxz; [|reflexivity].
        rewrite (Htr x z y Hx (Hlu z Hz) Hyu Hxz Hzy) in Hlow. discriminate.
      * exact (Hneg x y z Hx Hyu (Hlu z Hz) Hlow Hyz).
Qed.

Lemma sortDesc_sorted_double (univ l : list Binary64.Scored) :
  Binary64.consistent univ = true ->
  incl l univ ->
  StronglySorted (fun a b => (Binary64.index a < Binary64.index b)%nat) l ->
  StronglySorted Binary64.ranksBefore (Binary64.sortDesc l).
Proof.
  intros Hc Hincl Hs. revert Hincl.
  induction Hs as [|x l Hl IH Hx]; intros Hincl; cbn [Binary64.sortDesc];
    [constructor|].
  assert (Hlu : incl l univ) by (intros z Hz; apply Hincl; now right).
  apply (insertDesc_sorted_double univ).
  - exact Hc.
  - apply Hincl. now left.
  - intros z Hz. apply Hlu, (Permutation_in _ (sortDesc_perm_double l)), Hz.
  - now apply IH.
  - apply (Permutation_Forall (Permutation_sym (sortDesc_perm_double l))), Hx.
Qed.

Lemma scoredFrom_index_double (query : list PrimFloat.float) (i : nat)
  (dv : list (list PrimFloat.float)) :
  Forall (fun y => (i <= Binary64.index y)%nat) (Binary64.scoredFrom query i dv).
Proof.
  revert i; induction dv as [|e dv IH]; intros i; simpl; constructor.
  - simpl; lia.
  - eapply Forall_impl; [|apply (IH (S i))]. simpl; intros; lia.
Qed.

Lemma scoredFrom_increasing_double (query : list PrimFloat.float) (i : nat)
  (dv : list (list PrimFloat.float)) :
  StronglySorted (fun a b => (Binary64.index a < Binary64.index b)%nat)
    (Binary64.scoredFrom query i dv).
Proof.
  revert i; induction dv as [|e dv IH]; intros i; simpl; constructor.
  - apply IH.
  - eapply Forall_impl; [|apply (scoredFrom_index_double query (S i) dv)].
    simpl; intros; lia.
Qed.

Lemma scoredFrom_length_double (query : list PrimFloat.float) (i : nat)
  (dv : list (list PrimFloat.float)) :
  length (Binary64.scoredFrom query i dv) = length dv.
Proof. revert i; induction dv; intros i; simpl; auto. Qed.

Lemma scoredFrom_indices_double (query : list PrimFloat.float) (i : nat)
  (dv : list (list PrimFloat.float)) :
  map Binary64.index (Binary64.scoredFrom query i dv) = seq i (length dv).
Proof.
  revert i; induction dv as [|e dv IH]; intros i; simpl; [reflexivity|].
  now rewrite IH.
Qed.

Lemma scoredFrom_scores_double (query : list PrimFloat.float)
  (dv : list (list PrimFloat.float)) (i : nat) :
  Forall (fun x => Binary64.score x
                   = Binary64.similarity query
                       (nth (Binary64.index x - i) dv []))
    (Binary64.scoredFrom query i dv).
Proof.
  revert i; induction dv as [|e dv IH]; intros i; simpl; constructor.
  - simpl. now rewrite Nat.sub_diag.
  - pose proof (scoredFrom_index_double query (S i) dv) as Hidx.
    specialize (IH (S i)). rewrite Forall_forall in *.
    intros x Hx. rewrite (IH x Hx). specialize (Hidx x Hx).
    replace (Binary64.index x - i)%nat with (S (Binary64.index x - S i)) by lia.
    reflexivity.
Qed.

(** The ranking of the documents is ranked, when the comparator is
    consistent on their scores. *)
Lemma sortDesc_scoredFrom_sorted_double (query : list PrimFloat.float)
  (dv : list (list PrimFloat.float)) :
  Binary64.consistent (Binary64.scoredFrom query 0 dv) = true ->
  StronglySorted Binary64.ranksBefore
    (Binary64.sortDesc (Binary64.scoredFrom query 0 dv)).
Proof.
  intros Hc. apply (sortDesc_sorted_double (Binary64.scoredFrom query 0 dv)).
  - exact Hc.
  - apply incl_refl.
  - apply scoredFrom_increasing_double.
Qed.

(** [cosineSimilarity] returns exactly when no test fails. *)
Lemma cosineSimilarity_ok_double (a b : list PrimFloat.float) :
  a <> [] -> length b = length a ->
  Binary64.nonZero a -> Binary64.nonZero b ->
  Binary64.cosineSimilarity a b = ok (Binary64.similarity a b).
Proof.
  intros Ha Hlen Hza Hzb. unfold Binary64.cosineSimilarity.
  assert (Ha0 : (length a =? 0)%nat = false)
    by (destruct a; [congruence | reflexivity]).
  rewrite Hlen, Ha0, Nat.eqb_refl. cbn [orb negb].
  unfold Binary64.nonZero in Hza, Hzb.
  cbv beta zeta. rewrite Hza, Hzb. reflexivity.
Qed.

Lemma cosineSimilarity_inv_double (a b : list PrimFloat.float)
  (s : PrimFloat.float) :
  Binary64.cosineSimilarity a b = ok s ->
  a <> [] /\ length b = length a
  /\ Binary64.nonZero a /\ Binary64.nonZero b
  /\ s = Binary64.similarity a b.
Proof.
  unfold Binary64.cosineSimilarity, Binary64.nonZero.
  destruct (length a =? 0)%nat eqn:Ha; [discriminate|].
  destruct (length b =? 0)%nat eqn:Hb; [discriminate|]. cbn [orb].
  destruct (length a =? length b)%nat eqn:Hlen; [|discriminate].
  cbn [negb]. cbv beta zeta.
  match goal with
  | |- context [PrimFloat.eqb (Binary64.magnitude a) ?z] =>
      destruct (PrimFloat.eqb (Binary64.magnitude a) z) eqn:Hza;
      [discriminate|];
      destruct (PrimFloat.eqb (Binary64.magnitude b) z) eqn:Hzb;
      [discriminate|]
  end.
  cbn [orb]. intros H. unfold ok in H. injection H as <-.
  apply Nat.eqb_eq in Hlen.
  split; [intros ->; discriminate|]. split; [now symmetry|].
  split; [reflexivity|]. split; reflexivity.
Qed.

Lemma scoreFrom_ok_double (query : list PrimFloat.float) (i : nat)
  (dv : list (list PrimFloat.float)) :
  query <> [] -> Binary64.nonZero query ->
  Forall (fun e => length e = length query /\ Binary64.nonZero e) dv ->
  Binary64.scoreFrom query i dv = ok (Binary64.scoredFrom query i dv).
Proof.
  intros Hq Hz Hdv. revert i; induction Hdv as [|e dv [Hlen He] _ IH]; intros i.
  - reflexivity.
  - cbn [Binary64.scoreFrom Binary64.scoredFrom].
    rewrite (cosineSimilarity_ok_double query e Hq Hlen Hz He).
    cbn [bindRes ok]. now rewrite IH.
Qed.

Lemma scoreFrom_inv_double (query : list PrimFloat.float)
  (dv : list (list PrimFloat.float)) :
  forall (i : nat) (sims : list Binary64.Scored),
    Binary64.scoreFrom query i dv = ok sims ->
    Forall (fun e => length e = length query /\ Binary64.nonZero e) dv
    /\ (dv <> [] -> Binary64.nonZero query).
Proof.
  induction dv as [|e dv IH]; intros i sims H.
  - split; [constructor | congruence].
  - cbn [Binary64.scoreFrom] in H.
    destruct (Binary64.cosineSimilarity query e) as [err|s0] eqn:Hcos;
      [discriminate|].
    cbn [bindRes] in H.
    destruct (Binary64.scoreFrom query (S i) dv) as [err|r] eqn:Hrest;
      [discriminate|].
    apply cosineSimilarity_inv_double in Hcos as (_ & Hlen & Hq & He & _).
    destruct (IH _ _ Hrest) as [Hall _].
    split; [constructor; [split; assumption | exact Hall]|].
    intros _; exact Hq.
Qed.

(** On an input that passes every test the call returns the chunks of the
    first entries of the sorted array. *)
Lemma findRelevantChunks_ok_double (query : list PrimFloat.float)
  (dv : list (list PrimFloat.float)) (dc : list JsString) (topK : Z) :
  Binary64.validRanking query dv dc ->
  Binary64.findRelevantChunks query dv dc topK
  = ok (map (fun s => nth (Binary64.index s) dc [])
          (firstn (Z.to_nat (clampTopK topK (length dc)))
             (Binary64.sortDesc (Binary64.scoredFrom query 0 dv)))).
Proof.
  intros (Hq & Hz & Hne & Hlen & Hdv). unfold Binary64.findRelevantChunks.
  assert (Hq0 : (length query =? 0)%nat = false)
    by (destruct query; [congruence | reflexivity]).
  assert (Hdv0 : (length dv =? 0)%nat = false)
    by (destruct dv; [congruence | reflexivity]).
  assert (Hdc0 : (length dc =? 0)%nat = false)
    by (rewrite <- Hlen; exact Hdv0).
  rewrite Hq0, Hdv0, Hdc0, Hlen, Nat.eqb_refl. cbn [negb].
  rewrite (scoreFrom_ok_double query 0 dv Hq Hz Hdv). cbn [bindRes ok].
  now rewrite slice_0.
Qed.

(** A call that returns was made on an input that passes every test. *)
Lemma findRelevantChunks_inv_double (query : list PrimFloat.float)
  (dv : list (list PrimFloat.float)) (dc : list JsString) (topK : Z)
  (r : list JsString) :
  Binary64.findRelevantChunks query dv dc topK = ok r ->
  Binary64.validRanking query dv dc.
Proof.
  unfold Binary64.findRelevantChunks.
  destruct (length query =? 0)%nat eqn:Hq0; [discriminate|].
  destruct (length dv =? 0)%nat eqn:Hdv; [discriminate|].
  destruct (length dc =? 0)%nat; [discriminate|].
  destruct (length dv =? length dc)%nat eqn:Hlen; [|discriminate].
  cbn [negb].
  destruct (Binary64.scoreFrom query 0 dv) as [err|sims] eqn:Hs; [discriminate|].
  intros _. apply Nat.eqb_neq in Hdv. apply Nat.eqb_eq in Hlen.
  assert (Hne : dv <> []) by (intros ->; now apply Hdv).
  destruct (scoreFrom_inv_double _ _ _ _ Hs) as [Hall Hq].
  split; [intros ->; discriminate|]. split; [now apply Hq|].
  split; [exact Hne|]. split; assumption.
Qed.

(** The number of chunks of a returned result. *)
Lemma findRelevantChunks_length_double (query : list PrimFloat.float)
  (dv : list (list PrimFloat.float)) (dc : list JsString) (topK : Z)
  (r : list JsString) :
  Binary64.findRelevantChunks query dv dc topK = ok r ->
  Z.of_nat (length r) = clampTopK topK (length dc).
Proof.
  intros Hrun. pose proof (findRelevantChunks_inv_double _ _ _ _ _ Hrun) as Hv.
  rewrite (findRelevantChunks_ok_double _ _ _ topK Hv) in Hrun.
  unfold ok in Hrun. injection Hrun as <-.
  destruct Hv as (_ & _ & Hne & Hlen & _).
  assert (Hn : (1 <= length dc)%nat)
    by (destruct dv; [congruence | simpl in Hlen; lia]).
  pose proof (clampTopK_range topK _ Hn) as Hk.
  rewrite length_map, length_firstn,
    (Permutation_length (sortDesc_perm_double _)), scoredFrom_length_double.
  lia.
Qed.



(** What the doubles give on a few vectors: a vector need not have
    similarity [1] with itself, proportional vectors need not have equal
    scores, a magnitude can underflow to zero, and a score can be NaN. *)
Example cosineSimilarity_double_examples :
  Binary64.cosineSimilarity Binary64.v_1_1 Binary64.v_1_1
  = ok Binary64.belowOne
  /\ Binary64.cosineSimilarity Binary64.v_1_1 Binary64.v_2_2
     = ok Binary64.belowOne
  /\ Binary64.cosineSimilarity Binary64.v_1_1 Binary64.v_3_3
     = ok Binary64.one
  /\ Binary64.cosineSimilarity Binary64.v_1_1 Binary64.v_near
     = ok Binary64.one
  /\ Binary64.cosineSimilarity Binary64.v_1_1_1 Binary64.v_1_1_1
     = ok Binary64.aboveOne
  /\ Binary64.cosineSimilarity Binary64.v_1_0 Binary64.v_09_01
     = ok Binary64.scenarioScore
  /\ Binary64.cosineSimilarity [Binary64.tiny] [Binary64.tiny]
     = throw (Error (js "Invalid vectors: magnitude cannot be zero"))
  /\ Binary64.cosineSimilarity [Binary64.huge] [Binary64.huge]
     = ok PrimFloat.nan.
Proof. repeat split; vm_compute; reflexivity. Qed.

(** The rankings computed on doubles, the scenario of the specification
    among them; a magnitude that underflows makes the call throw, one that
    overflows does not. *)
Example findRelevantChunks_double_examples :
  Binary64.findRelevantChunks Binary64.v_1_1
    [Binary64.v_1_1; Binary64.v_2_2; Binary64.v_3_3]
    [js "A"; js "B"; js "C"] 2
  = ok [js "C"; js "A"]
  /\ Binary64.findRelevantChunks Binary64.v_1_1
       [Binary64.v_1_1; Binary64.v_near] [js "A"; js "B"] 1
     = ok [js "B"]
  /\ Binary64.findRelevantChunks Binary64.v_1_0
       [Binary64.v_1_0; Binary64.v_0_1; Binary64.v_09_01]
       [js "A"; js "B"; js "C"] 2
     = ok [js "A"; js "C"]
  /\ Binary64.findRelevantChunks [Binary64.tiny] [[Binary64.tiny]] [js "A"] 3
     = throw (Error (js "Invalid vectors: magnitude cannot be zero"))
  /\ Binary64.findRelevantChunks [Binary64.huge] [[Binary64.huge]] [js "A"] 3
     = ok [js "A"].
Proof. repeat split; vm_compute; reflexivity. Qed.

Lemma validRanking_three :
  Binary64.validRanking Binary64.v_1_1
    [Binary64.v_1_1; Binary64.v_2_2; Binary64.v_3_3]
    [js "A"; js "B"; js "C"].
Proof.
  split; [discriminate|]. split; [reflexivity|]. split; [discriminate|].
  split; [reflexivity|].
  repeat (constructor; [split; reflexivity|]). constructor.
Defined.

(** C3, as stated, fails on three counts.  With [topK = 0] the range test
    resets [topK] to [min(3, 1) = 1], and one chunk is returned where
    [min(topK, 1) = 0].  The vector [[2 ** -600]] is not zero, but its
    magnitude underflows to zero and the call throws.  The vector
    [[2 ** 600]] is not zero, but its score is NaN, which no order ranks. *)
Lemma findRelevantChunks_topK_zero_underflow_nan :
  (Binary64.findRelevantChunks [Binary64.one] [[Binary64.one]] [js "A"] 0
   = ok [js "A"]
   /\ ~ (Z.of_nat (length [js "A"]) <= Z.min 0 (Z.of_nat (length [js "A"])))%Z)
  /\ (PrimFloat.eqb Binary64.tiny Binary64.zero = false
      /\ Binary64.findRelevantChunks [Binary64.tiny] [[Binary64.tiny]]
           [js "A"] 3
         = throw (Error (js "Invalid vectors: magnitude cannot be zero")))
  /\ (PrimFloat.eqb Binary64.huge Binary64.zero = false
      /\ Binary64.scoreFrom [Binary64.huge] 0 [[Binary64.huge]]
         = ok [{| Binary64.index := 0; Binary64.score := PrimFloat.nan |}]).
Proof.
  split; [split; [vm_compute; reflexivity | simpl; lia]|].
  split; split; vm_compute; reflexivity.
Qed.

(** C3, amended.  On an input that passes every test (a non-empty query,
    non-empty [docVectors] and [docChunks] of equal length, every vector of
    the length of the query and with a computed magnitude that is not zero)
    [findRelevantChunks] returns exactly [k] chunks, where [k] is [topK]
    when [0 < topK <= len(docChunks)] and [min(3, len(docChunks))]
    otherwise: the chunks of the first [k] entries of the array of all
    scored documents after the sort, in the order of that array.  For a
    positive [topK] this is at most [min(topK, len(docChunks))] chunks.
    When the comparator [b.score - a.score] is consistent on the computed
    scores, the sorted array is in descending order of computed score,
    entries that the comparator does not separate in document order. *)
Theorem findRelevantChunks_top_by_computed_score
  (query : list PrimFloat.float) (dv : list (list PrimFloat.float))
  (dc : list JsString) (topK : Z) :
  Binary64.validRanking query dv dc ->
  exists (ranked : list Binary64.Scored) (result : list JsString),
    Binary64.findRelevantChunks query dv dc topK = ok result
    /\ Permutation ranked (Binary64.scoredFrom query 0 dv)
    /\ result = map (fun s => nth (Binary64.index s) dc [])
                  (firstn (Z.to_nat (clampTopK topK (length dc))) ranked)
    /\ Z.of_nat (length result) = clampTopK topK (length dc)
    /\ ((0 < topK)%Z ->
        (Z.of_nat (length result) <= Z.min topK (Z.of_nat (length dc)))%Z)
    /\ (Binary64.consistent (Binary64.scoredFrom query 0 dv) = true ->
        StronglySorted Binary64.ranksBefore ranked).
Proof.
  intros Hvalid. pose proof Hvalid as (Hq & Hz & Hne & Hlen & Hdv).
  exists (Binary64.sortDesc (Binary64.scoredFrom query 0 dv)). eexists.
  split; [apply (findRelevantChunks_ok_double _ _ _ topK Hvalid)|].
  split; [apply sortDesc_perm_double|].
  split; [reflexivity|].
  pose proof (findRelevantChunks_length_double _ _ _ _ _
                (findRelevantChunks_ok_double _ _ _ topK Hvalid)) as Hcount.
  split; [exact Hcount|].
  split; [|apply sortDesc_scoredFrom_sorted_double].
  intros Hpos. rewrite Hcount. unfold clampTopK.
  destruct (topK <=? 0)%Z eqn:H1; [lia|].
  destruct (topK >? Z.of_nat (length dc))%Z eqn:H2; cbn [orb]; lia.
Qed.

Lemma findRelevantChunks_top_by_computed_score_witness :
  exists (ranked : list Binary64.Scored) (result : list JsString),
    Binary64.findRelevantChunks Binary64.v_1_1
      [Binary64.v_1_1; Binary64.v_2_2; Binary64.v_3_3]
      [js "A"; js "B"; js "C"] 2 = ok result
    /\ Permutation ranked
         (Binary64.scoredFrom Binary64.v_1_1 0
            [Binary64.v_1_1; Binary64.v_2_2; Binary64.v_3_3])
    /\ result = map (fun s => nth (Binary64.index s) [js "A"; js "B"; js "C"] [])
                  (firstn (Z.to_nat (clampTopK 2 (length [js "A"; js "B"; js "C"])))
                     ranked)
    /\ Z.of_nat (length result) = clampTopK 2 (length [js "A"; js "B"; js "C"])
    /\ (Z.of_nat (length result)
         <= Z.min 2 (Z.of_nat (length [js "A"; js "B"; js "C"])))%Z
    /\ StronglySorted Binary64.ranksBefore ranked.
Proof.
  destruct (findRelevantChunks_top_by_computed_score _ _ _ 2%Z validRanking_three)
    as (ranked & result & Hrun & Hperm & Hres & Hcount & Hbound & Hsorted).
  exists ranked, result.
  split; [exact Hrun|]. split; [exact Hperm|]. split; [exact Hres|].
  split; [exact Hcount|]. split; [apply Hbound; lia|].
  apply Hsorted. vm_compute. reflexivity.
Defined.

(** On the three proportional documents the comparator is consistent, and
    the ranking puts the third document first. *)
Example ranking_three_consistent :
  Binary64.consistent
    (Binary64.scoredFrom Binary64.v_1_1 0
       [Binary64.v_1_1; Binary64.v_2_2; Binary64.v_3_3]) = true
  /\ map Binary64.index
       (Binary64.sortDesc
          (Binary64.scoredFrom Binary64.v_1_1 0
             [Binary64.v_1_1; Binary64.v_2_2; Binary64.v_3_3]))
     = [2; 0; 1]%nat.
Proof. split; vm_compute; reflexivity. Qed.



(** X9.  On doubles [findRelevantChunks] returns exactly on the inputs
    that pass every test: a non-empty query, at least one document vector,
    as many chunks as vectors, every document vector as long as the query,
    and a computed magnitude of the query and of every document vector
    that is not zero.  On every other input it throws, whatever [topK]
    is. *)
Theorem findRelevantChunks_returns_iff
  (query : list PrimFloat.float) (dv : list (list PrimFloat.float))
  (dc : list JsString) (topK : Z) :
  (exists r, Binary64.findRelevantChunks query dv dc topK = ok r)
  <-> Binary64.validRanking query dv dc.
Proof.
  split.
  - intros [r H]. exact (findRelevantChunks_inv_double _ _ _ _ _ H).
  - intros H. eexists. exact (findRelevantChunks_ok_double _ _ _ topK H).
Qed.

(** X10.  Whenever [findRelevantChunks] returns, it returns the chunks at
    distinct positions of [docChunks] (their number is the value of [topK]
    after the range test); when the comparator is consistent on the
    computed scores, it puts the score of no returned chunk behind the
    score of a chunk that was not returned. *)
Theorem findRelevantChunks_keeps_highest_scores
  (query : list PrimFloat.float) (dv : list (list PrimFloat.float))
  (dc : list JsString) (topK : Z) (r : list JsString) :
  Binary64.findRelevantChunks query dv dc topK = ok r ->
  exists idx : list nat,
    r = map (fun i => nth i dc []) idx
    /\ NoDup idx
    /\ Forall (fun i => (i < length dc)%nat) idx
    /\ length idx = Z.to_nat (clampTopK topK (length dc))
    /\ (Binary64.consistent (Binary64.scoredFrom query 0 dv) = true ->
        forall i j : nat,
          In i idx -> (j < length dc)%nat -> ~ In j idx ->
          Binary64.below (Binary64.similarity query (nth i dv []))
            (Binary64.similarity query (nth j dv [])) = false).
Proof.
  intros Hrun. pose proof (findRelevantChunks_inv_double _ _ _ _ _ Hrun) as Hvalid.
  pose proof (findRelevantChunks_length_double _ _ _ _ _ Hrun) as Hcount.
  rewrite (findRelevantChunks_ok_double _ _ _ topK Hvalid) in Hrun.
  unfold ok in Hrun. injection Hrun as <-.
  destruct Hvalid as (_ & _ & Hne & Hlen & _).
  set (k := Z.to_nat (clampTopK topK (length dc))) in *.
  set (ranked := Binary64.sortDesc (Binary64.scoredFrom query 0 dv)) in *.
  assert (Hperm : Permutation ranked (Binary64.scoredFrom query 0 dv))
    by apply sortDesc_perm_double.
  assert (Hidx : Permutation (map Binary64.index ranked) (seq 0 (length dc))).
  { rewrite <- Hlen, <- (scoredFrom_indices_double query 0 dv).
    now apply Permutation_map. }
  assert (Hscore : Forall (fun x => Binary64.score x
                            = Binary64.similarity query
                                (nth (Binary64.index x) dv [])) ranked).
  { apply (Permutation_Forall (Permutation_sym Hperm)).
    eapply Forall_impl; [|apply (scoredFrom_scores_double query dv 0)].
    intros x Hx. cbv beta in Hx. now rewrite Nat.sub_0_r in Hx. }
  assert (Hsplit : ranked = firstn k ranked ++ skipn k ranked)
    by (symmetry; apply firstn_skipn).
  assert (Hnodup : NoDup (map Binary64.index ranked)).
  { apply (Permutation_NoDup (Permutation_sym Hidx)), seq_NoDup. }
  exists (map Binary64.index (firstn k ranked)).
  split; [now rewrite map_map|].
  split.
  { rewrite Hsplit, map_app in Hnodup. exact (NoDup_app_remove_r _ _ Hnodup). }
  split.
  { rewrite Forall_forall. intros i Hi.
    assert (Hin : In i (map Binary64.index ranked)).
    { rewrite Hsplit, map_app. apply in_or_app. now left. }
    apply (Permutation_in _ Hidx), in_seq in Hin. lia. }
  split.
  { rewrite length_map in Hcount |- *. unfold k in *. lia. }
  intros Hc i j Hi Hj Hnot.
  destruct (consistent_spec _ Hc) as (Hirr & Htr & _).
  pose proof (sortDesc_scoredFrom_sorted_double query dv Hc) as Hsorted.
  fold ranked in Hsorted.
  apply in_map_iff in Hi as (x & <- & Hx).
  assert (Hjin : In j (map Binary64.index ranked)).
  { apply (Permutation_in _ (Permutation_sym Hidx)), in_seq. lia. }
  apply in_map_iff in Hjin as (y & <- & Hy).
  assert (Hy2 : In y (skipn k ranked)).
  { rewrite Hsplit in Hy. apply in_app_or in Hy as [Hy|Hy]; [|exact Hy].
    exfalso. apply Hnot, in_map, Hy. }
  assert (Hx1 : In x ranked) by (rewrite Hsplit; apply in_or_app; now left).
  rewrite Forall_forall in Hscore.
  rewrite <- (Hscore x Hx1), <- (Hscore y Hy).
  change (Binary64.lower x y = false).
  rewrite Hsplit in Hsorted.
  destruct (StronglySorted_app_cross _ _ _ Hsorted x y Hx Hy2) as [Hyx|[Hxy _]];
    [|exact Hxy].
  destruct (Binary64.lower x y) eqn:Hxy; [|reflexivity].
  assert (Hxu : In x (Binary64.scoredFrom query 0 dv))
    by exact (Permutation_in _ Hperm Hx1).
  assert (Hyu : In y (Binary64.scoredFrom query 0 dv))
    by exact (Permutation_in _ Hperm Hy).
  pose proof (Htr x y x Hxu Hyu Hxu Hxy Hyx) as Hxx.
  rewrite (Hirr x Hxu) in Hxx. discriminate.
Qed.

Lemma findRelevantChunks_keeps_highest_scores_witness :
  exists idx : list nat,
    [js "B"] = map (fun i => nth i [js "A"; js "B"] []) idx
    /\ NoDup idx
    /\ Forall (fun i => (i < length [js "A"; js "B"])%nat) idx
    /\ length idx = Z.to_nat (clampTopK 1 (length [js "A"; js "B"]))
    /\ (forall i j : nat,
          In i idx -> (j < length [js "A"; js "B"])%nat -> ~ In j idx ->
          Binary64.below
            (Binary64.similarity Binary64.v_1_1
               (nth i [Binary64.v_1_1; Binary64.v_near] []))
            (Binary64.similarity Binary64.v_1_1
               (nth j [Binary64.v_1_1; Binary64.v_near] [])) = false).
Proof.
  destruct (findRelevantChunks_keeps_highest_scores Binary64.v_1_1
              [Binary64.v_1_1; Binary64.v_near] [js "A"; js "B"] 1%Z [js "B"])
    as (idx & Hres & Hnodup & Hpos & Hlen & Hbest).
  - vm_compute. reflexivity.
  - exists idx. split; [exact Hres|]. split; [exact Hnodup|].
    split; [exact Hpos|]. split; [exact Hlen|].
    apply Hbest. vm_compute. reflexivity.
Defined.

End RankingBinary64.

(* ================================================================== *)
(** ** Further properties of getEmbeddings *)
(* ================================================================== *)

Section EmbeddingMore.

Variable W : Type.
Variable embeddings_create : list JsString -> W -> W * Res (list (list R)).

(** One turn of the loop. *)
Lemma embedLoop_step (texts : list JsString) (i : nat)
  (embeddings : list (list R)) (s : St W) :
  embedLoop embeddings_create texts i embeddings s
  = if lt_dec i (length texts) then
      match call (EvEmbed (slice texts i (i + batchSize)))
                 (embeddings_create (slice texts i (i + batchSize))) s with
      | (s1, inl e) => (s1, inl e)
      | (s1, inr res) =>
          embedLoop embeddings_create texts (i + batchSize) (embeddings ++ res)
            (if lt_dec (i + batchSize) (length texts)
             then fst (pause 200 s1) else s1)
      end
    else (s, ok embeddings).
Proof.
  rewrite embedLoop_unfold_eq. unfold embedLoop_unfold.
  destruct (lt_dec i (length texts)); [|reflexivity].
  cbn [embedLoop_unfold_clause_1].
  destruct (call (EvEmbed (slice texts i (i + batchSize)))
              (embeddings_create (slice texts i (i + batchSize))) s)
    as [s1 [e|res]]; reflexivity.
Qed.

(** What [getEmbeddings] does with the outcome of its loop. *)
Lemma getEmbeddings_loop (texts : list JsString) (s : St W) :
  texts <> [] ->
  getEmbeddings embeddings_create texts s
  = match embedLoop embeddings_create texts 0 [] s with
    | (s', inl _) => (s', throw (Error (js "Failed to generate embeddings")))
    | (s', inr vs) => (s', ok vs)
    end.
Proof.
  intros Htexts. unfold getEmbeddings, tryCatch.
  destruct texts as [|t texts']; [congruence|]. cbn [length Nat.eqb].
  destruct (embedLoop embeddings_create (t :: texts') 0 [] s) as [s' [e|vs]];
    reflexivity.
Qed.

Lemma batchCalls_counts (batches : list (list JsString)) :
  length (filter isEmbed (batchCalls batches)) = length batches
  /\ length (filter isPause (batchCalls batches)) = (length batches - 1)%nat.
Proof.
  induction batches as [|b rest [IHe IHp]]; [split; reflexivity|].
  destruct rest as [|b' rest']; [split; reflexivity|].
  change (batchCalls (b :: b' :: rest'))
    with (EvEmbed b :: EvPause 200 :: batchCalls (b' :: rest')).
  cbn [filter isEmbed isPause length]. rewrite IHe, IHp.
  cbn [length]. split; lia.
Qed.

(** X11.  With a service that answers every batch, embedding [n >= 1]
    texts costs [n / 10] calls of the service, rounded up, and one pause
    of 200 ms less than calls. *)
Theorem getEmbeddings_call_count (respond : list JsString -> list (list R))
  (texts : list JsString) (s : St W) :
  texts <> [] ->
  (forall batch w, snd (embeddings_create batch w) = ok (respond batch)) ->
  exists events : list Event,
    trace (fst (getEmbeddings embeddings_create texts s)) = trace s ++ events
    /\ length (filter isEmbed events) = ((length texts + 9) / 10)%nat
    /\ length (filter isPause events) = ((length texts + 9) / 10 - 1)%nat
    /\ Forall (fun ev => isEmbed ev = true \/ ev = EvPause 200) events.
Proof.
  intros Htexts Hservice.
  destruct (embedLoop_batches W embeddings_create respond texts 0 [] s Hservice)
    as (batches & Hcat & Hfull & Hnil & Hval & Htr).
  rewrite (getEmbeddings_loop texts s Htexts).
  destruct (embedLoop embeddings_create texts 0 [] s) as [s' [e|vs]];
    cbn [fst snd] in *; [discriminate|].
  exists (batchCalls batches). split; [exact Htr|].
  destruct (batchCalls_counts batches) as [He Hp]. rewrite He, Hp.
  assert (Hne : batches <> []).
  { intros Hb. apply Hnil in Hb. destruct texts; [congruence | simpl in Hb; lia]. }
  destruct (fullButLast_concat_length _ _ Hfull Hne) as (r & Hr & Hlen).
  cbn [skipn] in Hcat. rewrite Hcat in Hlen. unfold batchSize in *.
  assert (Hk : length batches = ((length texts + 9) / 10)%nat).
  { assert (1 <= length batches)%nat
      by (destruct batches; [congruence | simpl; lia]).
    apply (Nat.div_unique _ _ _ (r - 1)); lia. }
  rewrite <- Hk. split; [reflexivity|]. split; [reflexivity|].
  clear. induction batches as [|b rest IH]; [constructor|].
  destruct rest as [|b' rest'].
  - repeat constructor.
  - change (batchCalls (b :: b' :: rest'))
      with (EvEmbed b :: EvPause 200 :: batchCalls (b' :: rest')).
    constructor; [now left|]. constructor; [now right | exact IH].
Qed.

Lemma batchAt_shift (texts : list JsString) (i j : nat) :
  batchAt texts (i + batchSize) j = batchAt texts i (S j).
Proof.
  unfold batchAt. f_equal; unfold batchSize; lia.
Qed.

Lemma batchAt_0 (texts : list JsString) (i : nat) :
  batchAt texts i 0 = slice texts i (i + batchSize).
Proof. unfold batchAt. f_equal; unfold batchSize; lia. Qed.

(** The loop stops at the first batch the service rejects.  The service
    may depend on the world: [worlds j] is the world in which the batch
    number [j] is sent. *)
Lemma embedLoop_fails (texts : list JsString) (e : Exn) :
  forall (k i : nat) (embeddings : list (list R)) (s : St W)
         (worlds : nat -> W) (answers : nat -> list (list R)),
    (i + batchSize * k < length texts)%nat ->
    worlds 0%nat = world s ->
    (forall j, (j < k)%nat ->
       embeddings_create (batchAt texts i j) (worlds j)
       = (worlds (S j), ok (answers j))) ->
    embeddings_create (batchAt texts i k) (worlds k)
    = (worlds (S k), throw e) ->
    embedLoop embeddings_create texts i embeddings s
    = ({| world := worlds (S k);
          trace := trace s
                   ++ batchCalls (map (batchAt texts i) (seq 0 (S k))) |},
       throw e).
Proof.
  induction k as [|k IH]; intros i embeddings s worlds answers Hlt Hw Hok Hbad.
  - rewrite embedLoop_step.
    destruct (lt_dec i (length texts)) as [_|Hn]; [|unfold batchSize in *; lia].
    unfold call. rewrite <- batchAt_0, <- Hw, Hbad.
    cbn [map seq batchCalls]. reflexivity.
  - rewrite embedLoop_step.
    destruct (lt_dec i (length texts)) as [_|Hn]; [|unfold batchSize in *; lia].
    unfold call. rewrite <- batchAt_0, <- Hw, (Hok 0%nat) by lia.
    cbv beta iota delta [ok].
    destruct (lt_dec (i + batchSize) (length texts)) as [_|Hn];
      [|unfold batchSize in *; lia].
    rewrite (IH (i + batchSize)%nat (embeddings ++ answers 0%nat) _
               (fun j => worlds (S j)) (fun j => answers (S j))).
    + cbn [pause fst trace world]. f_equal. f_equal.
      rewrite <- !app_assoc. f_equal.
      change (seq 0 (S (S k))) with (0%nat :: seq 1 (S k)).
      rewrite <- (seq_shift (S k) 0). cbn [map]. rewrite map_map.
      rewrite (map_ext (fun x => batchAt texts i (S x))
                 (batchAt texts (i + batchSize)))
        by (intros; symmetry; apply batchAt_shift).
      cbn [seq map]. reflexivity.
    + unfold batchSize in *. lia.
    + reflexivity.
    + intros j Hj. rewrite batchAt_shift. apply Hok. lia.
    + rewrite batchAt_shift. exact Hbad.
Qed.

(** X12.  When the service answers the first [k] batches and rejects the
    next one with an exception, [getEmbeddings] rejects with its one error,
    whatever that exception was, and the rejected batch is the last one
    sent: the service was called [k + 1] times, with a pause between two
    calls, and no later text was sent.  The service may answer by the
    state of the world: [worlds j] is the world in which the batch number
    [j] is sent, [answers j] the answer to it. *)
Theorem getEmbeddings_stops_at_failure
  (texts : list JsString) (k : nat) (e : Exn) (s : St W)
  (worlds : nat -> W) (answers : nat -> list (list R)) :
  (batchSize * k < length texts)%nat ->
  worlds 0%nat = world s ->
  (forall j, (j < k)%nat ->
     embeddings_create (batchAt texts 0 j) (worlds j)
     = (worlds (S j), ok (answers j))) ->
  embeddings_create (batchAt texts 0 k) (worlds k) = (worlds (S k), throw e) ->
  getEmbeddings embeddings_create texts s
  = ({| world := worlds (S k);
        trace := trace s
                 ++ batchCalls (map (batchAt texts 0) (seq 0 (S k))) |},
     throw (Error (js "Failed to generate embeddings"))).
Proof.
  intros Hlt Hw Hok Hbad.
  assert (Htexts : texts <> []) by (intros ->; simpl in Hlt; lia).
  rewrite (getEmbeddings_loop texts s Htexts).
  rewrite (embedLoop_fails texts e k 0%nat [] s worlds answers Hlt Hw Hok Hbad).
  reflexivity.
Qed.

End EmbeddingMore.

Lemma getEmbeddings_call_count_witness :
  exists events : list Event,
    trace (fst (getEmbeddings Sample.embeddings_create (repeat (js "t") 25)
                  Sample.start))
    = trace Sample.start ++ events
    /\ length (filter isEmbed events)
       = ((length (repeat (js "t") 25) + 9) / 10)%nat
    /\ length (filter isPause events)
       = ((length (repeat (js "t") 25) + 9) / 10 - 1)%nat
    /\ Forall (fun ev => isEmbed ev = true \/ ev = EvPause 200) events.
Proof.
  apply (getEmbeddings_call_count unit Sample.embeddings_create
           (map Sample.embedOne) (repeat (js "t") 25) Sample.start).
  - discriminate.
  - reflexivity.
Defined.

Lemma getEmbeddings_stops_at_failure_witness :
  getEmbeddings Sample.embeddingsQuota (repeat (js "t") 30) Sample.startQuota
  = ({| world := 3%nat;
        trace := trace Sample.startQuota
                 ++ batchCalls (map (batchAt (repeat (js "t") 30) 0)
                                  (seq 0 3)) |},
     throw (Error (js "Failed to generate embeddings"))).
Proof.
  apply (getEmbeddings_stops_at_failure nat Sample.embeddingsQuota
           (repeat (js "t") 30) 2 (Error (js "429 Too Many Requests"))
           Sample.startQuota (fun j => j)
           (fun j => map Sample.embedOne (batchAt (repeat (js "t") 30) 0 j))).
  - simpl. lia.
  - reflexivity.
  - intros j Hj.
    destruct j as [|[|j]]; [reflexivity | reflexivity | lia].
  - reflexivity.
Defined.

(** The three batches of that run are the same ten texts: the service
    answers the first two and rejects the third, and two pauses were
    made. *)
Example getEmbeddings_quota_trace :
  trace (fst (getEmbeddings Sample.embeddingsQuota (repeat (js "t") 30)
                Sample.startQuota))
  = [EvEmbed (repeat (js "t") 10); EvPause 200;
     EvEmbed (repeat (js "t") 10); EvPause 200;
     EvEmbed (repeat (js "t") 10)].
Proof.
  vm_compute. reflexivity.
Qed.

(* ================================================================== *)
(** ** Further properties of POST *)
(* ================================================================== *)

Lemma trimStart_nil_iff (s : JsString) : trimStart s = [] <-> allSpace s.
Proof.
  unfold allSpace. induction s as [|c s IH]; simpl; [tauto|].
  destruct (isSpace c); simpl; [exact IH|]. split; discriminate.
Qed.

Lemma trimStart_head (s : JsString) (c : N) (t : JsString) :
  trimStart s = c :: t -> isSpace c = false.
Proof.
  induction s as [|d s IH]; simpl; [discriminate|].
  destruct (isSpace d) eqn:Hd; [exact IH|]. intros H. now injection H as <- _.
Qed.

Lemma allSpace_rev (s : JsString) : allSpace (rev s) <-> allSpace s.
Proof.
  unfold allSpace. rewrite !forallb_forall. split; intros H x Hx; apply H.
  - now apply in_rev in Hx.
  - now apply in_rev.
Qed.

(** [!s.trim()] holds exactly for the strings made of white space only,
    the empty string included. *)
Lemma trim_empty_iff (s : JsString) : isEmpty (trim s) = true <-> allSpace s.
Proof.
  unfold trim. split.
  - intros H.
    assert (Hr : trimStart (rev (trimStart s)) = []).
    { destruct (trimStart (rev (trimStart s))) as [|c t] eqn:E; [reflexivity|].
      simpl in H. destruct (rev t ++ [c]) eqn:E'; [|discriminate].
      now destruct (rev t). }
    apply trimStart_nil_iff in Hr. apply (proj1 (allSpace_rev _)) in Hr.
    destruct (trimStart s) as [|c t] eqn:E; [now apply trimStart_nil_iff|].
    exfalso. apply trimStart_head in E.
    unfold allSpace in Hr. cbn [forallb] in Hr. rewrite E in Hr. discriminate.
  - intros H. apply trimStart_nil_iff in H. now rewrite H.
Qed.

Section HandlerMore.

Variable W : Type.
Variable fetch : JsValue -> W -> W * Res HttpResponse.
Variable pdf : list Byte.byte -> W -> W * Res JsString.
Variable embeddings_create : list JsString -> W -> W * Res (list (list R)).
Variable askOpenRouter : JsString -> list JsString -> W -> W * Res JsString.
Variable Number_toString : PrimFloat.float -> JsString.

(** Step 1 in full: it returns the text exactly when the document was
    fetched, the response passed the tests, and the parser gave a text
    that is not blank; the parser is called only on an accepted response. *)
Lemma downloadPdf_cases (d : JsValue) (s : St W) :
  (exists (w1 : W) (e : Exn),
      fetch d (world s) = (w1, throw e)
      /\ downloadPdf fetch pdf Number_toString d s
         = ({| world := w1; trace := trace s ++ [EvFetch d] |}, throw e))
  \/ (exists (w1 : W) (r : HttpResponse) (e : Exn),
        fetch d (world s) = (w1, ok r)
        /\ (forall buffer, ~ accepted r buffer)
        /\ downloadPdf fetch pdf Number_toString d s
           = ({| world := w1; trace := trace s ++ [EvFetch d] |}, throw e))
  \/ (exists (w1 w2 : W) (r : HttpResponse) (buffer : list Byte.byte)
             (parsed : Res JsString),
        fetch d (world s) = (w1, ok r)
        /\ accepted r buffer
        /\ pdf buffer w1 = (w2, parsed)
        /\ downloadPdf fetch pdf Number_toString d s
           = ({| world := w2; trace := trace s ++ [EvFetch d; EvPdf buffer] |},
              match parsed with
              | inl e => throw e
              | inr fullText =>
                  if isEmpty (trim fullText)
                  then throw (Error (js "PDF parsing succeeded but extracted text is empty"))
                  else ok fullText
              end)).
Proof.
  cbv beta iota zeta delta [downloadPdf bind call liftRes ret throwM].
  destruct (fetch d (world s)) as [w1 [e|r]] eqn:Hfetch.
  { left. exists w1, e. split; reflexivity. }
  right. cbv beta iota delta [ok].
  destruct (res_ok r) eqn:Hok; cbn [negb].
  2:{ left. eexists w1, r, _. split; [reflexivity|]. split; [|reflexivity].
      intros buffer (H & _). congruence. }
  cbv beta iota delta [ok].
  destruct (res_contentType r) as [c|] eqn:Hct.
  2:{ left. eexists w1, r, _. split; [reflexivity|]. split; [|reflexivity].
      intros buffer (_ & (c & H & _) & _). congruence. }
  destruct (includes c (js "application/pdf")) eqn:Hinc; cbn [negb].
  2:{ left. eexists w1, r, _. split; [reflexivity|]. split; [|reflexivity].
      intros buffer (_ & (c' & H & Hc') & _). congruence. }
  cbv beta iota delta [ok].
  destruct (res_arrayBuffer r) as [e|buffer] eqn:Hbuf.
  { left. eexists w1, r, _. split; [reflexivity|]. split; [|reflexivity].
    intros buffer (_ & _ & H & _). unfold ok in H. congruence. }
  destruct buffer as [|b0 buffer'].
  { left. eexists w1, r, _. split; [reflexivity|]. split; [|reflexivity].
    intros buffer (_ & _ & H & Hne). unfold ok in H. congruence. }
  cbn [length Nat.eqb world trace]. cbv beta iota delta [ok].
  right. destruct (pdf (b0 :: buffer') w1) as [w2 parsed] eqn:Hpdf.
  exists w1, w2, r, (b0 :: buffer'), parsed.
  split; [reflexivity|].
  split; [repeat split; try assumption; [now exists c | discriminate]|].
  split; [exact Hpdf|].
  rewrite <- app_assoc. cbn [app].
  destruct parsed as [e|fullText]; [reflexivity|].
  destruct (isEmpty (trim fullText)); reflexivity.
Qed.

(** The handler on a request that passes the validation, stage by stage. *)
Lemma POST_stages (parsed d : JsValue) (questions : list JsValue) (s : St W) :
  destructure parsed = ok (Some d, Some (JArray questions)) ->
  truthy (Some d) = true -> questions <> [] ->
  POST fetch pdf embeddings_create askOpenRouter Number_toString (ok parsed) s
  = match downloadPdf fetch pdf Number_toString d s with
    | (s1, inl e) =>
        (s1, ok (json (ErrorBody (js "Failed to fetch or parse the PDF document: "
                                  ++ message e)) 500))
    | (s1, inr fullText) =>
        match (if isEmpty (trim fullText)
               then throw (Error (js "Extracted PDF text is empty"))
               else chunkText fullText 500) with
        | inl _ =>
            (s1, ok (json (ErrorBody (js "Failed to process the document content.")) 500))
        | inr chunks =>
            match getEmbeddings embeddings_create chunks s1 with
            | (s2, inl _) =>
                (s2, ok (json (ErrorBody (js "Failed to generate document embeddings.")) 500))
            | (s2, inr chunkEmbeddings) =>
                match questionLoop embeddings_create askOpenRouter
                        Number_toString chunks chunkEmbeddings [] questions s2 with
                | (s3, inr results) => (s3, ok (json (AnswersBody results) 200))
                | (s3, inl err) =>
                    (s3, ok (json (ErrorBody (if isEmpty (message err)
                                              then js "Internal server error"
                                              else message err)) 500))
                end
            end
        end
    end.
Proof.
  intros Hd Hdoc Hq.
  cbv beta iota zeta delta [POST tryCatch bind liftRes ret ok throw throwM].
  rewrite Hd. cbv beta iota delta [ok]. rewrite Hdoc.
  destruct questions as [|q0 rest]; [congruence|].
  cbn [negb orb truthy isArray elements length Nat.eqb].
  destruct (downloadPdf fetch pdf Number_toString d s) as [s1 [e|fullText]];
    [reflexivity|].
  cbv beta iota.
  destruct (isEmpty (trim fullText)); [reflexivity|].
  destruct (chunkText fullText 500) as [e|chunks]; [reflexivity|].
  cbv beta iota.
  destruct (getEmbeddings embeddings_create chunks s1)
    as [s2 [e|chunkEmbeddings]]; [reflexivity|].
  cbv beta iota.
  destruct (questionLoop embeddings_create askOpenRouter Number_toString chunks
              chunkEmbeddings [] (q0 :: rest) s2) as [s3 [e|results]];
    reflexivity.
Qed.

(** X13.  The handler never rejects: every request, whatever the
    collaborators do, is answered with a response, which is an answers
    list with status 200, the validation message with status 400, or a
    non-empty error message with status 500. *)
Theorem POST_always_responds (request : Res JsValue) (s : St W) :
  exists (s' : St W) (response : Response),
    POST fetch pdf embeddings_create askOpenRouter Number_toString request s
    = (s', ok response)
    /\ ((exists answers,
           response = json (AnswersBody answers) 200)
        \/ response = invalidRequest
        \/ (exists m, m <> [] /\ response = json (ErrorBody m) 500)).
Proof.
  assert (Hcatch : forall err : Exn,
            (if isEmpty (message err) then js "Internal server error"
             else message err) <> []).
  { intros err. destruct (message err); discriminate. }
  destruct request as [e|parsed].
  { do 2 eexists. split; [reflexivity|]. right; right.
    eexists. split; [apply (Hcatch e) | reflexivity]. }
  destruct (destructure parsed) as [e|[documents questions]] eqn:Hd.
  { do 2 eexists. split.
    - cbv beta iota zeta delta [POST tryCatch bind liftRes ret ok].
      rewrite Hd. reflexivity.
    - right; right. eexists. split; [apply (Hcatch e) | reflexivity]. }
  destruct (negb (truthy documents) || negb (truthy questions)
            || negb (isArray questions)
            || (length (elements questions) =? 0)%nat) eqn:Hvalid.
  { exists s, invalidRequest. split; [|now right; left].
    exact (POST_rejects W fetch pdf embeddings_create askOpenRouter
             Number_toString parsed documents questions s Hd Hvalid). }
  apply orb_false_elim in Hvalid as [Hvalid Hlen].
  apply orb_false_elim in Hvalid as [Hvalid Harr].
  apply orb_false_elim in Hvalid as [Hdoc _].
  destruct questions as [[| | | | qs |]|]; try discriminate Harr.
  destruct documents as [d|]; [|discriminate Hdoc].
  apply negb_false_iff in Hdoc. cbn [elements] in Hlen.
  assert (Hq : qs <> []) by (intros ->; discriminate Hlen).
  change (@inr Exn JsValue parsed) with (@ok JsValue parsed).
  rewrite (POST_stages parsed d qs s Hd Hdoc Hq).
  destruct (downloadPdf fetch pdf Number_toString d s) as [s1 [e|fullText]].
  { do 2 eexists. split; [reflexivity|]. right; right.
    eexists. split; [|reflexivity]. discriminate. }
  destruct (if isEmpty (trim fullText)
            then throw (Error (js "Extracted PDF text is empty"))
            else chunkText fullText 500) as [e|chunks].
  { do 2 eexists. split; [reflexivity|]. right; right.
    eexists. split; [|reflexivity]. discriminate. }
  destruct (getEmbeddings embeddings_create chunks s1)
    as [s2 [e|chunkEmbeddings]].
  { do 2 eexists. split; [reflexivity|]. right; right.
    eexists. split; [|reflexivity]. discriminate. }
  destruct (questionLoop embeddings_create askOpenRouter Number_toString chunks
              chunkEmbeddings [] qs s2) as [s3 [e|results]].
  - do 2 eexists. split; [reflexivity|]. right; right.
    eexists. split; [apply (Hcatch e) | reflexivity].
  - do 2 eexists. split; [reflexivity|]. left. now exists results.
Qed.

(** Text that step 1 returns is not blank. *)
Lemma downloadPdf_text (d : JsValue) (s s1 : St W) (fullText : JsString) :
  downloadPdf fetch pdf Number_toString d s = (s1, ok fullText) ->
  isEmpty (trim fullText) = false
  /\ exists buffer, trace s1 = trace s ++ [EvFetch d; EvPdf buffer].
Proof.
  intros Hrun.
  destruct (downloadPdf_cases d s)
    as [(w1 & e & _ & H) | [(w1 & r & e & _ & _ & H)
        | (w1 & w2 & r & buffer & parsed & _ & _ & _ & H)]];
    rewrite H in Hrun; try discriminate.
  destruct parsed as [e|text]; [discriminate|].
  destruct (isEmpty (trim text)) eqn:Htrim; [discriminate|].
  injection Hrun as <- <-. split; [exact Htrim | now exists buffer].
Qed.

(** X14.  The text that step 1 hands over always chunks: it is not blank,
    [chunkText] returns on it, and with at least one chunk.  So the
    response of step 2 for a failed chunking is never sent, and
    [getEmbeddings] is never called by the handler on an empty list of
    chunks. *)
Theorem POST_chunking_cannot_fail (d : JsValue) (s s1 : St W)
  (fullText : JsString) :
  downloadPdf fetch pdf Number_toString d s = (s1, ok fullText) ->
  isEmpty (trim fullText) = false
  /\ exists chunks : list JsString,
       chunkText fullText 500 = ok chunks /\ chunks <> [].
Proof.
  intros Hrun. destruct (downloadPdf_text d s s1 fullText Hrun) as [Htrim _].
  split; [exact Htrim|].
  assert (Htext : fullText <> []) by (intros ->; discriminate Htrim).
  destruct (chunkText_windows fullText 500 Htext eq_refl)
    as (wins & Hchunk & Hcat & _).
  exists (map (join SPACE) wins). split; [exact Hchunk|].
  destruct wins; [|discriminate].
  simpl in Hcat. symmetry in Hcat.
  exfalso. exact (splitFrom_not_nil false fullText Hcat).
Qed.

(** X15.  When step 1 fails, for whatever reason, the request is answered
    with status 500 and the message of the failure behind a fixed prefix;
    the only calls made are the fetch and, at most, one call of the PDF
    parser: nothing is embedded and no answer is asked for. *)
Theorem POST_download_failure (parsed d : JsValue) (questions : list JsValue)
  (s s1 : St W) (e : Exn) :
  destructure parsed = ok (Some d, Some (JArray questions)) ->
  truthy (Some d) = true -> questions <> [] ->
  downloadPdf fetch pdf Number_toString d s = (s1, throw e) ->
  POST fetch pdf embeddings_create askOpenRouter Number_toString (ok parsed) s
  = (s1, ok (json (ErrorBody (js "Failed to fetch or parse the PDF document: "
                              ++ message e)) 500))
  /\ (trace s1 = trace s ++ [EvFetch d]
      \/ exists buffer, trace s1 = trace s ++ [EvFetch d; EvPdf buffer]).
Proof.
  intros Hd Hdoc Hq Hrun.
  rewrite (POST_stages parsed d questions s Hd Hdoc Hq), Hrun.
  split; [reflexivity|].
  destruct (downloadPdf_cases d s)
    as [(w1 & e' & _ & H) | [(w1 & r & e' & _ & _ & H)
        | (w1 & w2 & r & buffer & p & _ & _ & _ & H)]];
    rewrite H in Hrun; injection Hrun as <- _; cbn [trace].
  - now left.
  - now left.
  - right. now exists buffer.
Qed.

(** X16.  When the fetch fails, or its response is not accepted (status
    not ok, content type missing or not [application/pdf], body unreadable
    or empty), the request is answered with status 500 and a message behind
    the fixed prefix, and the fetch is the only call made: the PDF parser,
    the embedding service and [askOpenRouter] are not called. *)
Theorem POST_rejected_document (parsed d : JsValue)
  (questions : list JsValue) (s : St W) (w1 : W) (r : Res HttpResponse) :
  destructure parsed = ok (Some d, Some (JArray questions)) ->
  truthy (Some d) = true -> questions <> [] ->
  fetch d (world s) = (w1, r) ->
  (forall resp buffer, r = ok resp -> ~ accepted resp buffer) ->
  exists detail : JsString,
    POST fetch pdf embeddings_create askOpenRouter Number_toString
      (ok parsed) s
    = ({| world := w1; trace := trace s ++ [EvFetch d] |},
       ok (json (ErrorBody (js "Failed to fetch or parse the PDF document: "
                            ++ detail)) 500)).
Proof.
  intros Hd Hdoc Hq Hfetch Hbad.
  rewrite (POST_stages parsed d questions s Hd Hdoc Hq).
  destruct (downloadPdf_cases d s)
    as [(w1' & e' & Hf & H) | [(w1' & resp & e' & Hf & _ & H)
        | (w1' & w2 & resp & buffer & p & Hf & Hacc & _ & _)]];
    rewrite Hfetch in Hf.
  - injection Hf as <- _. rewrite H. now exists (message e').
  - injection Hf as <- _. rewrite H. now exists (message e').
  - injection Hf as _ ->. exfalso. exact (Hbad resp buffer eq_refl Hacc).
Qed.

(** X17.  When the embedding service rejects the first batch of chunks,
    the request is answered with status 500 and a fixed message that says
    nothing of what the service threw; that call is the last one made, so
    no question is processed. *)
Theorem POST_embedding_failure (parsed d : JsValue)
  (questions : list JsValue) (s s1 : St W) (fullText : JsString)
  (chunks : list JsString) (w2 : W) (e : Exn) :
  destructure parsed = ok (Some d, Some (JArray questions)) ->
  truthy (Some d) = true -> questions <> [] ->
  downloadPdf fetch pdf Number_toString d s = (s1, ok fullText) ->
  chunkText fullText 500 = ok chunks ->
  embeddings_create (slice chunks 0 batchSize) (world s1) = (w2, throw e) ->
  POST fetch pdf embeddings_create askOpenRouter Number_toString (ok parsed) s
  = ({| world := w2;
        trace := trace s1 ++ [EvEmbed (slice chunks 0 batchSize)] |},
     ok (json (ErrorBody (js "Failed to generate document embeddings.")) 500)).
Proof.
  intros Hd Hdoc Hq Hrun Hchunk Hfail.
  rewrite (POST_stages parsed d questions s Hd Hdoc Hq), Hrun.
  cbv beta iota delta [ok].
  destruct (downloadPdf_text d s s1 fullText Hrun) as [Htrim _].
  rewrite Htrim, Hchunk. cbv beta iota delta [ok].
  assert (Hne : chunks <> []).
  { assert (Htext : fullText <> []) by (intros ->; discriminate Htrim).
    destruct (chunkText_windows fullText 500 Htext eq_refl)
      as (wins & Hchunk' & Hcat & _).
    rewrite Hchunk in Hchunk'. injection Hchunk' as ->.
    destruct wins; [|discriminate]. simpl in Hcat. symmetry in Hcat.
    exfalso. exact (splitFrom_not_nil false fullText Hcat). }
  rewrite (getEmbeddings_loop W embeddings_create chunks s1 Hne).
  rewrite embedLoop_step.
  destruct (lt_dec 0 (length chunks)) as [_|Hn];
    [|destruct chunks; [congruence | simpl in Hn; lia]].
  unfold call. cbn [Nat.add]. rewrite Hfail. reflexivity.
Qed.

End HandlerMore.

(** Induction on a value of JSON, with the hypothesis for the elements of
    an array. *)
Lemma JsValue_nested_ind (P : JsValue -> Prop) :
  P JNull -> (forall b, P (JBool b)) -> (forall n, P (JNumber n)) ->
  (forall s, P (JString s)) ->
  (forall elems, Forall P elems -> P (JArray elems)) ->
  (forall props, P (JObject props)) ->
  forall v, P v.
Proof.
  intros Hnull Hbool Hnum Hstr Harr Hobj.
  exact (fix go (v : JsValue) : P v :=
           match v with
           | JNull => Hnull
           | JBool b => Hbool b
           | JNumber n => Hnum n
           | JString s => Hstr s
           | JArray elems =>
               Harr elems
                 ((fix all (l : list JsValue) : Forall P l :=
                     match l with
                     | [] => Forall_nil P
                     | e :: l' => Forall_cons e (go e) (all l')
                     end) elems)
           | JObject props => Hobj props
           end).
Qed.

Section Printable.
Variable Number_toString : PrimFloat.float -> JsString.

Lemma bindRes_ok {A B : Type} (r : Res A) (k : A -> Res B) (b : B) :
  bindRes r k = ok b <-> exists a, r = ok a /\ k a = ok b.
Proof.
  destruct r as [e|a]; cbn [bindRes]; split.
  - discriminate.
  - intros (a & Ha & _). discriminate.
  - intros H. now exists a.
  - intros (a' & Ha & Hk). injection Ha as <-. exact Hk.
Qed.

(** The conversion to a string succeeds exactly on the printable values. *)
Lemma ToString_printable (v : JsValue) :
  (exists shown, ToString Number_toString v = ok shown) <-> printable v = true.
Proof.
  induction v as [| b | n | s | elems IH | props] using JsValue_nested_ind.
  - split; [reflexivity | intros _; eexists; reflexivity].
  - split; [reflexivity | intros _; destruct b; eexists; reflexivity].
  - split; [reflexivity | intros _; eexists; reflexivity].
  - split; [reflexivity | intros _; eexists; reflexivity].
  - cbn [ToString printable].
    match goal with
    | |- context [bindRes (?f elems) _] => set (each := f)
    end.
    assert (Heach : (exists parts, each elems = ok parts)
                    <-> forallb printable elems = true).
    { induction IH as [|e l He _ IHl];
        [split; [reflexivity | intros _; now exists []]|].
      cbn [forallb]. rewrite andb_true_iff, <- IHl, <- He.
      set (conv := match e with
                   | JNull => ok []
                   | _ => ToString Number_toString e
                   end).
      assert (Hconv : (exists s0, conv = ok s0)
                      <-> exists s0, ToString Number_toString e = ok s0).
      { subst conv. destruct e; try tauto.
        split; intros _; eexists; reflexivity. }
      rewrite <- Hconv.
      change (each (e :: l))
        with (bindRes conv (fun s0 => bindRes (each l) (fun r => ok (s0 :: r)))).
      split.
      - intros [parts Hp]. apply bindRes_ok in Hp as (s0 & Hs0 & Hp).
        apply bindRes_ok in Hp as (r & Hr & _).
        split; [now exists s0 | now exists r].
      - intros [[s0 Hs0] [r Hr]]. exists (s0 :: r).
        apply bindRes_ok. exists s0. split; [exact Hs0|].
        apply bindRes_ok. now exists r. }
    rewrite <- Heach. split.
    + intros [shown Hs]. apply bindRes_ok in Hs as (parts & Hp & _).
      now exists parts.
    + intros [parts Hp]. eexists. apply bindRes_ok. exists parts.
      split; [exact Hp | reflexivity].
  - cbn [ToString printable].
    destruct (getOwn (js "toString") props); split.
    + intros [? ?]; discriminate.
    + discriminate.
    + reflexivity.
    + intros _. eexists; reflexivity.
Qed.
End Printable.

Section RankingResult.

Local Open Scope R_scope.

(** What is returned is a non-empty list of chunks of the document, as
    long as the value of [topK] after the range test. *)
Lemma findRelevantChunks_result (query : list R) (dv : list (list R))
  (dc : list JsString) (topK : Z) (r : list JsString) :
  findRelevantChunks query dv dc topK = ok r ->
  Z.of_nat (length r) = clampTopK topK (length dc)
  /\ (1 <= length r)%nat
  /\ incl r dc.
Proof.
  intros Hrun. pose proof (findRelevantChunks_inv _ _ _ _ _ Hrun) as Hvalid.
  rewrite (findRelevantChunks_ok _ _ _ topK Hvalid) in Hrun.
  injection Hrun as <-. destruct Hvalid as (_ & Hne & Hlen & _).
  assert (Hn : (1 <= length dc)%nat)
    by (destruct dv; [congruence | simpl in Hlen; lia]).
  pose proof (clampTopK_range topK _ Hn) as Hk.
  assert (Hcount : length (map (fun s => nth (index s) dc [])
            (firstn (Z.to_nat (clampTopK topK (length dc)))
               (sortDesc (scoredFrom query 0 dv))))
          = Z.to_nat (clampTopK topK (length dc))).
  { rewrite length_map, length_firstn,
      (Permutation_length (sortDesc_perm _)), scoredFrom_length. lia. }
  split; [rewrite Hcount; lia|]. split; [rewrite Hcount; lia|].
  intros c Hc. apply in_map_iff in Hc as (x & <- & Hx).
  assert (Hx' : In x (sortDesc (scoredFrom query 0 dv))).
  { rewrite <- (firstn_skipn (Z.to_nat (clampTopK topK (length dc)))).
    apply in_or_app. now left. }
  clear Hx. rename Hx' into Hx.
  apply (Permutation_in _ (sortDesc_perm _)) in Hx.
  apply (in_map index) in Hx. rewrite scoredFrom_indices in Hx.
  apply in_seq in Hx. apply nth_In. lia.
Qed.

End RankingResult.

Section HandlerCalls.

Variable W : Type.
Variable fetch : JsValue -> W -> W * Res HttpResponse.
Variable pdf : list Byte.byte -> W -> W * Res JsString.
Variable embeddings_create : list JsString -> W -> W * Res (list (list R)).
Variable askOpenRouter : JsString -> list JsString -> W -> W * Res JsString.
Variable Number_toString : PrimFloat.float -> JsString.

(** Embedding one text is one call of the service, without a pause. *)
Lemma getEmbeddings_single (q : JsString) (s : St W) :
  exists (w1 : W) (r : Res (list (list R))),
    embeddings_create [q] (world s) = (w1, r)
    /\ getEmbeddings embeddings_create [q] s
       = ({| world := w1; trace := trace s ++ [EvEmbed [q]] |},
          match r with
          | inl _ => throw (Error (js "Failed to generate embeddings"))
          | inr vs => ok vs
          end).
Proof.
  destruct (embeddings_create [q] (world s)) as [w1 r] eqn:Hcall.
  exists w1, r. split; [reflexivity|].
  assert (Hne : [q] <> []) by discriminate.
  rewrite (getEmbeddings_loop W embeddings_create [q] s Hne).
  rewrite embedLoop_step. cbn [length].
  destruct (lt_dec 0 1) as [_|Hn]; [|lia].
  change (slice [q] 0 (0 + batchSize)) with [q].
  unfold call. rewrite Hcall.
  destruct r as [e|vs]; [reflexivity|].
  destruct (lt_dec (0 + batchSize) 1) as [Hlt|_];
    [unfold batchSize in Hlt; lia|].
  rewrite embedLoop_step. cbn [length].
  destruct (lt_dec (0 + batchSize) 1) as [Hlt|_];
    [unfold batchSize in Hlt; lia|].
  reflexivity.
Qed.

(** A question that trims to the empty string gets its placeholder at
    once. *)
Lemma processQuestion_trims_empty (chunks : list JsString)
  (chunkEmbeddings : list (list R)) (results : list JsString)
  (q : JsString) (s : St W) :
  isEmpty (trim q) = true ->
  processQuestion embeddings_create askOpenRouter Number_toString
    chunks chunkEmbeddings results (JString q) s
  = (s, ok (results ++ [js "Error: Empty question provided"])).
Proof.
  intros Hq.
  cbv beta iota zeta delta [processQuestion tryCatch bind liftRes callTrim ok ret].
  now rewrite Hq.
Qed.

(** X18.  A blank question (white space only, the empty one included)
    gets the placeholder of an empty question at once: the state is
    unchanged, no collaborator is called for it. *)
Theorem processQuestion_blank (chunks : list JsString)
  (chunkEmbeddings : list (list R)) (results : list JsString)
  (q : JsString) (s : St W) :
  allSpace q ->
  processQuestion embeddings_create askOpenRouter Number_toString
    chunks chunkEmbeddings results (JString q) s
  = (s, ok (results ++ [js "Error: Empty question provided"])).
Proof.
  intros Hq. apply processQuestion_trims_empty, trim_empty_iff, Hq.
Qed.

(** X19.  Processing one question makes no call at all, or one call of
    the embedding service for the question alone, or that call followed
    by one call of [askOpenRouter] with the question and between one and
    three chunks of the document.  When the single call is the embedding
    one, the question gets the placeholder of a failed question. *)
Theorem processQuestion_calls (chunks : list JsString)
  (chunkEmbeddings : list (list R)) (results : list JsString)
  (question : JsValue) (s : St W) :
  fst (processQuestion embeddings_create askOpenRouter Number_toString
         chunks chunkEmbeddings results question s) = s
  \/ (exists (q : JsString) (w1 : W),
        question = JString q
        /\ processQuestion embeddings_create askOpenRouter Number_toString
             chunks chunkEmbeddings results question s
           = ({| world := w1; trace := trace s ++ [EvEmbed [q]] |},
              ok (results ++ [js "Error: Failed to process the question: " ++ q])))
  \/ (exists (q : JsString) (w2 : W) (relevant : list JsString),
        question = JString q
        /\ fst (processQuestion embeddings_create askOpenRouter Number_toString
                  chunks chunkEmbeddings results question s)
           = {| world := w2;
                trace := trace s ++ [EvEmbed [q]; EvAsk q relevant] |}
        /\ (1 <= length relevant <= 3)%nat
        /\ incl relevant chunks).
Proof.
  destruct question as [| b | n | q | elems | props];
    try (left; rewrite processQuestion_not_string by discriminate; reflexivity).
  destruct (isEmpty (trim q)) eqn:Htrim.
  { left.
    now rewrite (processQuestion_trims_empty chunks chunkEmbeddings results
                   q s Htrim). }
  right.
  destruct (getEmbeddings_single q s) as (w1 & r & _ & Hemb).
  cbv beta iota zeta delta [processQuestion tryCatch bind liftRes callTrim ok ret].
  rewrite Htrim.
  change (ToString Number_toString (JString q)) with (@inr Exn JsString q).
  match goal with
  | |- context [@getEmbeddings W embeddings_create ?l s] =>
      change (@getEmbeddings W embeddings_create l s)
        with (getEmbeddings embeddings_create [q] s)
  end.
  rewrite Hemb.
  destruct r as [e|vectors]; [left; exists q, w1; split; reflexivity|].
  cbv beta iota delta [ok].
  destruct (match vectors with
            | [] => throw (Error (js "Invalid query embedding"))
            | questionEmbedding :: _ =>
                findRelevantChunks questionEmbedding chunkEmbeddings chunks 3
            end) as [e|relevant] eqn:Hrank;
    [left; exists q, w1; split; reflexivity|].
  right.
  destruct vectors as [|questionEmbedding rest]; [discriminate Hrank|].
  destruct (findRelevantChunks_result _ _ _ _ _ Hrank) as (Hlen & Hpos & Hincl).
  unfold call. cbn [world trace].
  destruct (askOpenRouter q relevant w1) as [w2 answer].
  exists q, w2, relevant. split; [reflexivity|].
  split; [destruct answer; cbn [fst]; now rewrite <- app_assoc|].
  split; [|exact Hincl].
  split; [exact Hpos|]. unfold clampTopK in Hlen.
  destruct ((3 <=? 0)%Z || (3 >? Z.of_nat (length chunks))%Z); lia.
Qed.

Lemma forallb_first_false {A : Type} (f : A -> bool) (l : list A) :
  forallb f l = false ->
  exists before bad after,
    l = before ++ bad :: after /\ forallb f before = true /\ f bad = false.
Proof.
  induction l as [|a l IH]; [discriminate|]. cbn [forallb].
  destruct (f a) eqn:Ha; cbn [andb]; intros H.
  - destruct (IH H) as (before & bad & after & -> & Hb & Hbad).
    exists (a :: before), bad, after. cbn [forallb app]. rewrite Ha.
    repeat split; assumption.
  - exists [], a, l. repeat split; assumption.
Qed.

Lemma printable_Forall (questions : list JsValue) :
  forallb printable questions = true ->
  Forall (fun q => exists shown, ToString Number_toString q = ok shown)
    questions.
Proof.
  intros H. rewrite forallb_forall in H. apply Forall_forall.
  intros q Hq. apply ToString_printable, H, Hq.
Qed.

(** X20.  A request that reaches the loop over the questions is answered
    with an answers list exactly when every question is printable: a
    string, [null], a boolean, a number, an object without an own
    [toString], or an array of printable values. *)
Theorem POST_answers_iff_printable (parsed d : JsValue)
  (questions : list JsValue) (s s1 s2 : St W) (fullText : JsString)
  (chunks : list JsString) (chunkEmbeddings : list (list R)) :
  destructure parsed = ok (Some d, Some (JArray questions)) ->
  truthy (Some d) = true -> questions <> [] ->
  downloadPdf fetch pdf Number_toString d s = (s1, ok fullText) ->
  isEmpty (trim fullText) = false ->
  chunkText fullText 500 = ok chunks ->
  getEmbeddings embeddings_create chunks s1 = (s2, ok chunkEmbeddings) ->
  (exists (s' : St W) (answers : list JsString),
      POST fetch pdf embeddings_create askOpenRouter Number_toString
        (ok parsed) s
      = (s', ok (json (AnswersBody answers) 200)))
  <-> forallb printable questions = true.
Proof.
  intros Hd Hdoc Hq Hdown Htext Hchunk Hembed. split.
  - intros (s' & answers & Hrun).
    destruct (forallb printable questions) eqn:Hp; [reflexivity|]. exfalso.
    destruct (forallb_first_false _ _ Hp)
      as (before & bad & after & -> & Hbefore & Hbad).
    destruct (ToString Number_toString bad) as [e|shown] eqn:Hshow.
    + destruct (POST_aborts_on_unprintable W fetch pdf embeddings_create
                  askOpenRouter Number_toString parsed d before after bad e
                  s s1 s2 fullText chunks chunkEmbeddings Hd Hdoc Hdown Htext
                  Hchunk Hembed (printable_Forall before Hbefore) Hshow)
        as [s'' Habort].
      rewrite Habort in Hrun. discriminate.
    + assert (printable bad = true)
        by (apply (ToString_printable Number_toString); now exists shown).
      congruence.
  - intros Hp.
    rewrite (POST_reaches_loop W fetch pdf embeddings_create askOpenRouter
               Number_toString parsed d questions s s1 s2 fullText chunks
               chunkEmbeddings Hd Hdoc Hq Hdown Htext Hchunk Hembed).
    destruct (questionLoop_total W embeddings_create askOpenRouter
                Number_toString chunks chunkEmbeddings questions
                (printable_Forall questions Hp) [] s2)
      as (s' & entries & Hrun & _).
    rewrite Hrun. exists s', entries. reflexivity.
Qed.

(** X21.  A body that cannot be read as JSON is answered with status 500
    and the message of the failure, or a default message when that one
    is empty; the body [null] is answered with status 500; every other
    body that is not an object (a string, a number, a boolean, an array)
    is answered with status 400.  No collaborator is called. *)
Theorem POST_unusable_body (s : St W) :
  (forall e : Exn,
      POST fetch pdf embeddings_create askOpenRouter Number_toString
        (throw e) s
      = (s, ok (json (ErrorBody (if isEmpty (message e)
                                 then js "Internal server error"
                                 else message e)) 500)))
  /\ POST fetch pdf embeddings_create askOpenRouter Number_toString
       (ok JNull) s
     = (s, ok (json (ErrorBody (js "Cannot destructure property 'documents' of '(intermediate value)' as it is null.")) 500))
  /\ (forall parsed : JsValue,
        parsed <> JNull -> (forall props, parsed <> JObject props) ->
        POST fetch pdf embeddings_create askOpenRouter Number_toString
          (ok parsed) s
        = (s, ok invalidRequest)).
Proof.
  split; [reflexivity|]. split; [reflexivity|].
  intros parsed Hnull Hobj.
  apply (POST_rejects W fetch pdf embeddings_create askOpenRouter
           Number_toString parsed None None s); [|reflexivity].
  destruct parsed as [| b | n | q | elems | props]; try reflexivity.
  - congruence.
  - exfalso. exact (Hobj props eq_refl).
Qed.

End HandlerCalls.

Lemma POST_chunking_cannot_fail_witness :
  isEmpty (trim (js "Fire damage is covered.")) = false
  /\ exists chunks : list JsString,
       chunkText (js "Fire damage is covered.") 500 = ok chunks
       /\ chunks <> [].
Proof.
  apply (POST_chunking_cannot_fail unit Sample.fetch Sample.pdf
           Sample.Number_toString Sample.url Sample.start Sample.downloaded
           (js "Fire damage is covered.")).
  reflexivity.
Defined.

Lemma POST_download_failure_witness :
  POST Sample.fetchHtml Sample.pdf Sample.embeddings_create
    Sample.askOpenRouter Sample.Number_toString
    (Sample.request [JString (js "Is fire covered?")]) Sample.start
  = ({| world := tt; trace := [EvFetch Sample.url] |},
     ok (json (ErrorBody
                 (js "Failed to fetch or parse the PDF document: "
                  ++ message (Error (js "Invalid content type: text/html. Expected PDF document."))))
           500))
  /\ (trace {| world := tt; trace := [EvFetch Sample.url] |}
      = trace Sample.start ++ [EvFetch Sample.url]
      \/ exists buffer,
           trace {| world := tt; trace := [EvFetch Sample.url] |}
           = trace Sample.start ++ [EvFetch Sample.url; EvPdf buffer]).
Proof.
  apply (POST_download_failure unit Sample.fetchHtml Sample.pdf
           Sample.embeddings_create Sample.askOpenRouter Sample.Number_toString
           (JObject [(js "documents", Sample.url);
                     (js "questions", JArray [JString (js "Is fire covered?")])])
           Sample.url [JString (js "Is fire covered?")] Sample.start
           {| world := tt; trace := [EvFetch Sample.url] |}
           (Error (js "Invalid content type: text/html. Expected PDF document."))).
  - reflexivity.
  - reflexivity.
  - discriminate.
  - reflexivity.
Defined.

Lemma POST_rejected_document_witness :
  exists detail : JsString,
    POST Sample.fetchHtml Sample.pdf Sample.embeddings_create
      Sample.askOpenRouter Sample.Number_toString
      (Sample.request [JString (js "Is fire covered?")]) Sample.start
    = ({| world := tt; trace := trace Sample.start ++ [EvFetch Sample.url] |},
       ok (json (ErrorBody (js "Failed to fetch or parse the PDF document: "
                            ++ detail)) 500)).
Proof.
  apply (POST_rejected_document unit Sample.fetchHtml Sample.pdf
           Sample.embeddings_create Sample.askOpenRouter Sample.Number_toString
           (JObject [(js "documents", Sample.url);
                     (js "questions", JArray [JString (js "Is fire covered?")])])
           Sample.url [JString (js "Is fire covered?")] Sample.start tt
           (snd (Sample.fetchHtml Sample.url tt))).
  - reflexivity.
  - reflexivity.
  - discriminate.
  - reflexivity.
  - intros resp buffer Hresp (_ & (c & Hc & Hinc) & _).
    injection Hresp as <-. cbn [res_contentType] in Hc.
    injection Hc as <-. discriminate Hinc.
Defined.

Lemma POST_embedding_failure_witness :
  POST Sample.fetch Sample.pdf Sample.embeddingsDown Sample.askOpenRouter
    Sample.Number_toString
    (Sample.request [JString (js "Is fire covered?")]) Sample.start
  = ({| world := tt;
        trace := trace Sample.downloaded
                 ++ [EvEmbed (slice [js "Fire damage is covered."] 0 batchSize)] |},
     ok (json (ErrorBody (js "Failed to generate document embeddings.")) 500)).
Proof.
  apply (POST_embedding_failure unit Sample.fetch Sample.pdf
           Sample.embeddingsDown Sample.askOpenRouter Sample.Number_toString
           (JObject [(js "documents", Sample.url);
                     (js "questions", JArray [JString (js "Is fire covered?")])])
           Sample.url [JString (js "Is fire covered?")] Sample.start
           Sample.downloaded (js "Fire damage is covered.")
           [js "Fire damage is covered."] tt
           (Error (js "429 Too Many Requests"))).
  - reflexivity.
  - reflexivity.
  - discriminate.
  - reflexivity.
  - reflexivity.
  - reflexivity.
Defined.

Lemma processQuestion_blank_witness :
  processQuestion Sample.embeddings_create Sample.askOpenRouter
    Sample.Number_toString [js "Fire damage is covered."] [[1%R]] []
    (JString (js "  ")) Sample.atLoop
  = (Sample.atLoop, ok ([] ++ [js "Error: Empty question provided"])).
Proof.
  apply (processQuestion_blank unit Sample.embeddings_create
           Sample.askOpenRouter Sample.Number_toString
           [js "Fire damage is covered."] [[1%R]] [] (js "  ") Sample.atLoop).
  reflexivity.
Defined.

Lemma POST_answers_iff_printable_witness :
  (exists (s' : St unit) (answers : list JsString),
      POST Sample.fetch Sample.pdf Sample.embeddings_create
        Sample.askOpenRouter Sample.Number_toString
        (ok (JObject [(js "documents", Sample.url);
                      (js "questions", JArray [JNull; Sample.unprintable])]))
        Sample.start
      = (s', ok (json (AnswersBody answers) 200)))
  <-> forallb printable [JNull; Sample.unprintable] = true.
Proof.
  apply (POST_answers_iff_printable unit Sample.fetch Sample.pdf
           Sample.embeddings_create Sample.askOpenRouter Sample.Number_toString
           (JObject [(js "documents", Sample.url);
                     (js "questions", JArray [JNull; Sample.unprintable])])
           Sample.url [JNull; Sample.unprintable] Sample.start
           Sample.downloaded Sample.atLoop (js "Fire damage is covered.")
           [js "Fire damage is covered."] [[1%R]]).
  - reflexivity.
  - reflexivity.
  - discriminate.
  - reflexivity.
  - reflexivity.
  - reflexivity.
  - reflexivity.
Defined.
